(** * pizza-hunt: the offline write queue of [public/assets/js/idb.js]

    A shallow embedding of the IndexedDB-backed queue ([saveRecord]), of the
    resync routine ([uploadPizza]) and of the browser events that drive them,
    followed by the properties of the queue and of the sync engine. *)

From stdpp Require Import gmap strings list fin_maps sorting.
From Stdlib Require Import ZArith.

#[local] Open Scope string_scope.
#[local] Open Scope list_scope.

(** ** JSON values

    Queued records, request bodies and parsed response bodies are JSON
    values.  Numbers are kept as integers: the code only ever tests a number
    for truthiness. *)

#[warnings="-register-all"]
Inductive JSON : Type :=
| JNull
| JBool (b : bool)
| JNum (n : Z)
| JStr (s : string)
| JArr (items : list JSON)
| JObj (fields : list (string * JSON)).

(** What [v.name] evaluates to for an object literal parsed from JSON: the
    last field of that name wins, a missing field reads as [undefined]. *)
Fixpoint get_field (name : string) (fields : list (string * JSON)) : option JSON :=
  match fields with
  | [] => None
  | (k, v) :: rest =>
      match get_field name rest with
      | Some w => Some w
      | None => if String.eqb k name then Some v else None
      end
  end.

(** JavaScript errors that the code can raise or observe. *)
Inductive JsError : Type :=
| TypeError (msg : string)
| SyntaxError
| ErrorOf (payload : JSON).

Inductive Result (A : Type) : Type :=
| Ok (a : A)
| Throw (e : JsError).
Arguments Ok {A} a.
Arguments Throw {A} e.

(** [v.message]: reading a property of [null] throws, primitives and arrays
    have no such property ([None] is [undefined]). *)
Definition prop_message (v : JSON) : Result (option JSON) :=
  match v with
  | JNull => Throw (TypeError "Cannot read properties of null (reading 'message')")
  | JObj fields => Ok (get_field "message" fields)
  | _ => Ok None
  end.

(** The condition of [if (x)]. *)
Definition truthy (x : option JSON) : bool :=
  match x with
  | None => false
  | Some JNull => false
  | Some (JBool b) => b
  | Some (JNum n) => negb (Z.eqb n 0)
  | Some (JStr s) => negb (String.eqb s "")
  | Some (JArr _) => true
  | Some (JObj _) => true
  end.

(** ** The object store [new_pizza]

    [createObjectStore('new_pizza', { autoIncrement: true })]: records under
    positive integer keys drawn from a key generator that starts at 1. *)

Record ObjectStore : Type := mkStore {
  records : gmap positive JSON;
  keygen : positive
}.

Definition createObjectStore : ObjectStore :=
  {| records := ∅; keygen := 1%positive |}.

(** [add(record)]: the record goes under the generator's current number and
    the generator moves on. *)
Definition store_add (r : JSON) (st : ObjectStore) : ObjectStore :=
  {| records := <[keygen st := r]> (records st);
     keygen := Pos.succ (keygen st) |}.

(** Adding records one after the other. *)
Definition store_add_all (rs : list JSON) (st : ObjectStore) : ObjectStore :=
  foldl (λ acc r, store_add r acc) st rs.

(** [clear()] removes every record and leaves the key generator alone. *)
Definition store_clear (st : ObjectStore) : ObjectStore :=
  {| records := ∅; keygen := keygen st |}.

Definition key_le (p q : positive * JSON) : Prop := (p.1 ≤ q.1)%positive.

#[global] Instance key_le_dec p q : Decision (key_le p q).
Proof. unfold key_le. apply _. Defined.

#[global] Instance key_le_trans : Transitive key_le.
Proof. intros x y z. unfold key_le. lia. Qed.

#[global] Instance key_le_total : Total key_le.
Proof. intros x y. unfold key_le. lia. Qed.

(** [getAll()]: the values of all records, in ascending key order. *)
Definition entries (st : ObjectStore) : list (positive * JSON) :=
  merge_sort key_le (map_to_list (records st)).

Definition getAll (st : ObjectStore) : list JSON := (entries st).*2.

(** Keys handed out so far are below the generator. *)
Definition store_wf (st : ObjectStore) : Prop :=
  ∀ k, is_Some (records st !! k) → (k < keygen st)%positive.

(** ** The page: globals, pending work and observable effects *)

(** The value of [event.target.result] that [request.onsuccess] stores in
    the global [db]. *)
Inductive IDBDatabase : Type := Connection.

(** A request placed on a fresh [readwrite] transaction over [new_pizza].
    All transactions of the file have that mode and scope, so the storage
    layer runs them one after the other in the order of their creation. *)
Inductive Request : Type :=
| ReqAdd (r : JSON)
| ReqGetAll
| ReqClear.

(** How a [fetch] ends: the promise rejects, or a response arrives whose
    body parses as JSON ([Some v]) or does not ([None]). *)
Inductive FetchOutcome : Type :=
| NetworkError
| Response (status : Z) (body : option JSON).

(** Calls that leave the script, in the order they are made. *)
Inductive Effect : Type :=
| Idb (q : Request)
| Fetch (body : list JSON)
| Alert (msg : string)
| ConsoleLog (e : JsError)
| ConsoleLogErrorCode
| Uncaught (e : JsError).

Record State : Type := mkState {
  db : option IDBDatabase;
  onLine : bool;
  store : ObjectStore;
  pending : list Request;
  inflight : list (list JSON);
  trace : list Effect
}.

Definition set_db (c : option IDBDatabase) (s : State) : State :=
  mkState c (onLine s) (store s) (pending s) (inflight s) (trace s).
Definition set_onLine (b : bool) (s : State) : State :=
  mkState (db s) b (store s) (pending s) (inflight s) (trace s).
Definition set_store (st : ObjectStore) (s : State) : State :=
  mkState (db s) (onLine s) st (pending s) (inflight s) (trace s).
Definition set_pending (qs : list Request) (s : State) : State :=
  mkState (db s) (onLine s) (store s) qs (inflight s) (trace s).
Definition set_inflight (fs : list (list JSON)) (s : State) : State :=
  mkState (db s) (onLine s) (store s) (pending s) fs (trace s).
Definition set_trace (t : list Effect) (s : State) : State :=
  mkState (db s) (onLine s) (store s) (pending s) (inflight s) t.

(** ** A state and exception monad for the script's functions *)

Definition M (A : Type) : Type := State → Result A * State.

#[global] Instance M_ret : MRet M := λ A a s, (Ok a, s).
#[global] Instance M_bind : MBind M := λ A B k m s,
  match m s with
  | (Ok a, s') => k a s'
  | (Throw e, s') => (Throw e, s')
  end.

Definition throw {A : Type} (e : JsError) : M A := λ s, (Throw e, s).

Definition lift {A : Type} (r : Result A) : M A := λ s, (r, s).

(** [.catch(h)] at the end of a promise chain. *)
Definition catch (m : M unit) (h : JsError → M unit) : M unit := λ s,
  match m s with
  | (Ok a, s') => (Ok a, s')
  | (Throw e, s') => h e s'
  end.

Definition emit (e : Effect) : M unit := λ s,
  (Ok (), set_trace (trace s ++ [e]) s).

(** An exception that reaches the top of an event handler is reported by the
    browser and the handler ends. *)
Definition handle (m : M unit) (s : State) : State :=
  match m s with
  | (Ok _, s') => s'
  | (Throw e, s') => set_trace (trace s' ++ [Uncaught e]) s'
  end.

(** ** The script *)

(** [db.transaction(['new_pizza'], 'readwrite')] followed by
    [.objectStore('new_pizza')]; with [db] still undefined the property
    access throws. *)
Definition transaction : M unit := λ s,
  match db s with
  | Some Connection => (Ok (), s)
  | None => (Throw (TypeError "Cannot read properties of undefined (reading 'transaction')"), s)
  end.

(** Calling [add], [getAll] or [clear] on the object store queues the
    request; the call returns at once. *)
Definition idb_request (q : Request) : M unit := λ s,
  (Ok (), set_pending (pending s ++ [q]) (set_trace (trace s ++ [Idb q]) s)).

Definition saveRecord (record : JSON) : M unit :=
  transaction ;; idb_request (ReqAdd record).

Definition uploadPizza : M unit :=
  transaction ;; idb_request ReqGetAll.

Definition fetch (body : list JSON) : M unit := λ s,
  (Ok (), set_inflight (inflight s ++ [body]) (set_trace (trace s ++ [Fetch body]) s)).

(** [getAll.onsuccess], with [getAll.result] as argument. *)
Definition getAll_onsuccess (result : list JSON) : M unit :=
  if bool_decide (0 < length result) then fetch result else mret ().

(** The promise chain hanging off [fetch]. *)
Definition fetch_then (o : FetchOutcome) : M unit :=
  catch
    (response ← match o with
                | NetworkError => throw (TypeError "Failed to fetch")
                | Response _ body => mret body
                end;
     serverResponse ← match response with
                      | None => throw SyntaxError
                      | Some v => mret v
                      end;
     message ← lift (prop_message serverResponse);
     if truthy message then throw (ErrorOf serverResponse)
     else
       transaction ;;
       idb_request ReqClear ;;
       emit (Alert "All saved pizza has been submitted!"))
    (λ err, emit (ConsoleLog err)).

(** [request.onsuccess] of the [indexedDB.open] request. *)
Definition request_onsuccess : M unit := λ s,
  let s' := set_db (Some Connection) s in
  if onLine s' then uploadPizza s' else (Ok (), s').

(** [request.onerror]: [console.log(event.target.errorCode)]. *)
Definition request_onerror : M unit := emit ConsoleLogErrorCode.

(** ** The storage layer and the event loop *)

Definition apply_request (q : Request) (st : ObjectStore) : ObjectStore :=
  match q with
  | ReqAdd r => store_add r st
  | ReqGetAll => st
  | ReqClear => store_clear st
  end.

(** The storage layer completes a request; only [getAll] has a success
    handler attached. *)
Definition complete (q : Request) : M unit := λ s,
  let s' := set_store (apply_request q (store s)) s in
  match q with
  | ReqGetAll => getAll_onsuccess (getAll (store s)) s'
  | _ => (Ok (), s')
  end.

Inductive Event : Type :=
| EvOpenSuccess
| EvOpenError
| EvOnline
| EvOffline
| EvSaveRecord (r : JSON)
| EvIdb
| EvFetchDone (i : nat) (o : FetchOutcome)
| EvCrash.

(** One turn of the event loop; [None] when the event cannot occur in the
    state.  [EvOpenSuccess] and [EvOpenError] settle the [indexedDB.open]
    request of a page that is not connected, [EvIdb] completes the oldest
    pending request, [EvFetchDone]
    settles the [i]-th fetch in flight, [EvCrash] ends the browser process:
    the globals, the transactions not yet run and the fetches in flight are
    lost, the committed records stay.  That an open request settles only
    once per page is not tracked; the extra runs only add reachable states. *)
Definition step (ev : Event) (s : State) : option State :=
  match ev with
  | EvOpenSuccess =>
      match db s with
      | None => Some (handle request_onsuccess s)
      | Some _ => None
      end
  | EvOpenError =>
      match db s with
      | None => Some (handle request_onerror s)
      | Some _ => None
      end
  | EvOnline => Some (handle uploadPizza (set_onLine true s))
  | EvOffline => Some (set_onLine false s)
  | EvSaveRecord r => Some (handle (saveRecord r) s)
  | EvIdb =>
      match pending s with
      | [] => None
      | q :: rest => Some (handle (complete q) (set_pending rest s))
      end
  | EvFetchDone i o =>
      match inflight s !! i with
      | None => None
      | Some _ => Some (handle (fetch_then o) (set_inflight (delete i (inflight s)) s))
      end
  | EvCrash => Some (mkState None (onLine s) (store s) [] [] (trace s))
  end.

Fixpoint run (evs : list Event) (s : State) : option State :=
  match evs with
  | [] => Some s
  | ev :: rest =>
      match step ev s with
      | Some s' => run rest s'
      | None => None
      end
  end.

(** The page right after its script has run: [db] is undefined, nothing is
    pending. *)
Definition page_load (st : ObjectStore) (online : bool) : State :=
  mkState None online st [] [] [].

Definition reachable (s : State) : Prop :=
  ∃ online evs, run evs (page_load createObjectStore online) = Some s.

(** The bodies of the POST requests made so far. *)
Definition posted (t : list Effect) : list (list JSON) :=
  omap (λ e, match e with Fetch body => Some body | _ => None end) t.

Definition Zesty : JSON := JObj [("pizzaName", JStr "Zesty"); ("size", JStr "Large")].
Definition Hawaiian : JSON := JObj [("pizzaName", JStr "Hawaiian"); ("size", JStr "Small")].

(** The store once every pending request has been served, in order. *)
Definition settled_store (s : State) : ObjectStore :=
  foldl (λ st q, apply_request q st) (store s) (pending s).

(** The number of [getAll] calls made so far: one per flush attempt that got
    past opening its transaction. *)
Definition drains (t : list Effect) : nat :=
  length (omap (λ e, match e with Idb ReqGetAll => Some () | _ => None end) t).

(** The records handed to [saveRecord] during a run, in call order. *)
Definition saved (evs : list Event) : list JSON :=
  omap (λ ev, match ev with EvSaveRecord r => Some r | _ => None end) evs.

(** A stretch of the run in which the user saves records and the storage
    layer makes progress, in any interleaving. *)
Definition saving (evs : list Event) : Prop :=
  Forall (λ ev, ev = EvIdb ∨ ∃ r, ev = EvSaveRecord r) evs.

(** The events that can start a flush. *)
Definition is_trigger (ev : Event) : bool :=
  match ev with
  | EvOnline | EvOpenSuccess => true
  | _ => false
  end.

Definition triggers (evs : list Event) : nat :=
  length (filter (λ ev, is_trigger ev = true) evs).

(** A failed submission in the words of the specification: the network is
    unreachable, the status is not 2xx, or the body carries a [message]
    field. *)
Definition reported_failure (o : FetchOutcome) : Prop :=
  match o with
  | NetworkError => True
  | Response status body =>
      ¬ (200 ≤ status < 300)%Z ∨
      ∃ fields, body = Some (JObj fields) ∧ is_Some (get_field "message" fields)
  end.

(** What makes the promise chain of [uploadPizza] end in its [.catch]: the
    fetch rejects, the body is not JSON, the body is [null], or its
    [message] property is truthy. *)
Definition rejected (o : FetchOutcome) : Prop :=
  match o with
  | NetworkError => True
  | Response _ None => True
  | Response _ (Some v) =>
      v = JNull ∨ ∃ m, prop_message v = Ok (Some m) ∧ truthy (Some m) = true
  end.

(** The queue is untouched by the completion of fetch [i] with outcome [o],
    and the only trace of it is one line on the console. *)
Definition queue_kept (s : State) (i : nat) (o : FetchOutcome) : Prop :=
  ∃ s' err,
    step (EvFetchDone i o) s = Some s' ∧
    store s' = store s ∧
    pending s' = pending s ∧
    trace s' = trace s ++ [ConsoleLog err].

Definition undefined_db : JsError :=
  TypeError "Cannot read properties of undefined (reading 'transaction')".

Definition confirmation : Effect := Alert "All saved pizza has been submitted!".

(** What holds of every state the page can be in: keys are below the
    generator, and work is only ever pending on a connected page. *)
Record page_inv (s : State) : Prop := mkInv {
  inv_wf : store_wf (store s);
  inv_pending : pending s ≠ [] → db s = Some Connection;
  inv_inflight : inflight s ≠ [] → db s = Some Connection;
  inv_batches : Forall (λ body, body ≠ []) (inflight s)
}.

(** Two states used as concrete inputs: a connected page with one record
    written while offline, and the same page once back online with the batch
    posted and the response awaited. *)
Definition queued_offline : State :=
  mkState (Some Connection) false (store_add Zesty createObjectStore) [] []
    [Idb (ReqAdd Zesty)].

Definition flushing : State :=
  mkState (Some Connection) true (store_add Zesty createObjectStore) []
    [[Zesty]] [Idb (ReqAdd Zesty); Idb ReqGetAll; Fetch [Zesty]].

(** ** Further observations on the trace *)

(** The confirmations raised and the [clear()] calls made so far. *)
Definition alerts (t : list Effect) : nat :=
  length (omap (λ e, match e with Alert _ => Some () | _ => None end) t).

Definition clears (t : list Effect) : nat :=
  length (omap (λ e, match e with Idb ReqClear => Some () | _ => None end) t).

(** The exceptions that escaped an event handler. *)
Definition uncaught (t : list Effect) : list JsError :=
  omap (λ e, match e with Uncaught err => Some err | _ => None end) t.

(** Where the records in the store, in the pending [add] requests and in the
    posted batches come from: each was handed to [saveRecord] earlier, and no
    posted batch is empty. *)
Record provenance (s : State) : Prop := mkProvenance {
  prov_store : ∀ k r, records (store s) !! k = Some r → Idb (ReqAdd r) ∈ trace s;
  prov_pending : ∀ r, ReqAdd r ∈ pending s → Idb (ReqAdd r) ∈ trace s;
  prov_posted : ∀ body r, Fetch body ∈ trace s → r ∈ body → Idb (ReqAdd r) ∈ trace s;
  prov_nonempty : ∀ body, Fetch body ∈ trace s → body ≠ []
}.

(** ** The comment counters of [models/Pizza.js] and [models/Comment.js] *)

(** A reply and a comment as their schemas declare them; dates are kept as
    the number [Date.now] returned. *)
Record Reply : Type := mkReply {
  replyId : string;
  replyBody : string;
  reply_writtenBy : string;
  reply_createdAt : Z
}.

Record Comment : Type := mkComment {
  writtenBy : string;
  commentBody : string;
  createdAt : Z;
  replies : list Reply
}.

(** An element of a pizza's [comments] array: the comment document once the
    path is populated, the bare [ObjectId] otherwise. *)
Inductive CommentRef : Type :=
| Populated (c : Comment)
| ObjectId (id : string).

(** The virtual [replyCount] of a comment: [this.replies.length]. *)
Definition replyCount (c : Comment) : nat := length (replies c).

(** The callback of the [reduce] in [commentCount],
    [(total, comment) => total + comment.replies.length + 1], once an
    exception has been thrown nothing more is computed.  An [ObjectId] has no
    [replies] property, so reading [.length] of it throws. *)
Definition tally (acc : Result nat) (comment : CommentRef) : Result nat :=
  match acc with
  | Ok total =>
      match comment with
      | Populated c => Ok (total + length (replies c) + 1)
      | ObjectId _ =>
          Throw (TypeError "Cannot read properties of undefined (reading 'length')")
      end
  | Throw e => Throw e
  end.

(** The virtual [commentCount] of a pizza,
    [this.comments.reduce((total, comment) => ..., 0)]. *)
Definition commentCount (comments : list CommentRef) : Result nat :=
  foldl tally (Ok 0) comments.

(** A comment with one more reply at the end of its [replies] array, as
    [$push: { replies: body }] leaves it. *)
Definition push_reply (r : Reply) (c : Comment) : Comment :=
  mkComment (writtenBy c) (commentBody c) (createdAt c) (replies c ++ [r]).

(** ** Conditions on stretches of a run *)


(** An event that is not the arrival of an accepting response: a fetch, if
    it completes, is rejected. *)
Definition no_acceptance (ev : Event) : Prop :=
  match ev with
  | EvFetchDone _ o => rejected o
  | _ => True
  end.

(** ** Two runs, evaluated *)

Example getAll_three :
  getAll (store_add (JStr "c") (store_add (JStr "b") (store_add (JStr "a") createObjectStore)))
  = [JStr "a"; JStr "b"; JStr "c"].
Proof. vm_compute. reflexivity. Qed.

Example run_scenario_ok :
  (λ s, (getAll (store s), pending s, inflight s, trace s)) <$>
  run [EvOpenSuccess; EvSaveRecord Zesty; EvIdb; EvOnline; EvIdb;
       EvFetchDone 0 (Response 200 (Some (JArr [Zesty]))); EvIdb]
      (page_load createObjectStore false)
  = Some ([], [], [],
          [Idb (ReqAdd Zesty); Idb ReqGetAll; Fetch [Zesty]; Idb ReqClear;
           Alert "All saved pizza has been submitted!"]).
Proof. vm_compute. reflexivity. Qed.

(** ** Properties of the object store *)

Section object_store.
Implicit Types (st : ObjectStore) (r v : JSON) (k : positive).

Lemma entries_sorted st : StronglySorted key_le (entries st).
Proof. apply StronglySorted_merge_sort; apply _. Qed.

Lemma entries_perm st : entries st ≡ₚ map_to_list (records st).
Proof. apply merge_sort_Permutation. Qed.

Lemma elem_of_entries st k v :
  (k, v) ∈ entries st ↔ records st !! k = Some v.
Proof. by rewrite entries_perm, elem_of_map_to_list. Qed.

Lemma createObjectStore_wf : store_wf createObjectStore.
Proof. intros k [v Hv]. simpl in Hv. by rewrite lookup_empty in Hv. Qed.

Lemma store_clear_wf st : store_wf (store_clear st).
Proof. intros k [v Hv]. simpl in Hv. by rewrite lookup_empty in Hv. Qed.

Lemma store_wf_fresh st : store_wf st → records st !! keygen st = None.
Proof.
  intros Hwf. destruct (records st !! keygen st) eqn:E; [|done].
  assert (keygen st < keygen st)%positive by (apply Hwf; eauto). lia.
Qed.

Lemma store_add_wf r st : store_wf st → store_wf (store_add r st).
Proof.
  intros Hwf k [v Hv]. simpl in *.
  destruct (decide (keygen st = k)) as [<-|Hne]; [lia|].
  rewrite lookup_insert_ne in Hv by done.
  assert (k < keygen st)%positive by (apply Hwf; eauto). lia.
Qed.

Lemma apply_request_wf q st : store_wf st → store_wf (apply_request q st).
Proof.
  destruct q; simpl; auto using store_add_wf, store_clear_wf.
Qed.

(** A record added under the generator's number lands after every record
    already there. *)
Lemma entries_add r st :
  store_wf st → entries (store_add r st) = entries st ++ [(keygen st, r)].
Proof.
  intros Hwf. pose proof (store_wf_fresh st Hwf) as Hfresh.
  assert (Hperm : entries (store_add r st) ≡ₚ entries st ++ [(keygen st, r)]).
  { rewrite !entries_perm. simpl.
    rewrite map_to_list_insert by done.
    by rewrite Permutation_cons_append. }
  apply (StronglySorted_unique_strong key_le); [| apply entries_sorted | | done].
  - intros [k1 v1] [k2 v2] H1 H2 Hle Hge.
    unfold key_le in *; simpl in *.
    assert (k1 = k2) as <- by lia.
    rewrite <-Hperm in H2. apply elem_of_entries in H1, H2. congruence.
  - apply StronglySorted_app_2.
    + intros [k1 v1] x2 H1 ->%list_elem_of_singleton.
      apply elem_of_entries in H1. unfold key_le; simpl.
      assert (k1 < keygen st)%positive by (apply Hwf; eauto). lia.
    + apply entries_sorted.
    + repeat constructor.
Qed.

Lemma getAll_add r st : store_wf st → getAll (store_add r st) = getAll st ++ [r].
Proof. intros Hwf. unfold getAll. by rewrite entries_add, fmap_app. Qed.

Lemma getAll_empty st : records st = ∅ → getAll st = [].
Proof.
  intros E. unfold getAll.
  assert (entries st ≡ₚ []) as ->%Permutation_nil_r; [|done].
  by rewrite entries_perm, E, map_to_list_empty.
Qed.

Lemma getAll_clear st : getAll (store_clear st) = [].
Proof. by apply getAll_empty. Qed.

Lemma elem_of_getAll st v : v ∈ getAll st ↔ ∃ k, records st !! k = Some v.
Proof.
  unfold getAll. rewrite list_elem_of_fmap. split.
  - intros [[k w] [-> Hin]]. exists k. by apply elem_of_entries.
  - intros [k Hk]. exists (k, v). split; [done|]. by apply elem_of_entries.
Qed.

Lemma store_add_all_cons r rs st :
  store_add_all (r :: rs) st = store_add_all rs (store_add r st).
Proof. reflexivity. Qed.

Lemma store_add_all_wf rs st : store_wf st → store_wf (store_add_all rs st).
Proof.
  revert st. induction rs as [|r rs IH]; intros st Hwf; [done|].
  rewrite store_add_all_cons. by apply IH, store_add_wf.
Qed.

Lemma getAll_add_all rs st :
  store_wf st → getAll (store_add_all rs st) = getAll st ++ rs.
Proof.
  revert st. induction rs as [|r rs IH]; intros st Hwf.
  - by rewrite app_nil_r.
  - rewrite store_add_all_cons, IH by by apply store_add_wf.
    rewrite getAll_add by done. by rewrite <-app_assoc.
Qed.
End object_store.

(** ** Counting over the trace *)

Lemma drains_app t1 t2 : drains (t1 ++ t2) = drains t1 + drains t2.
Proof. unfold drains. by rewrite omap_app, length_app. Qed.

Lemma posted_app t1 t2 : posted (t1 ++ t2) = posted t1 ++ posted t2.
Proof. unfold posted. by rewrite omap_app. Qed.

(** ** The event loop *)

Ltac script :=
  unfold handle, complete, request_onsuccess, request_onerror,
    getAll_onsuccess, fetch_then, catch, saveRecord, uploadPizza, fetch,
    idb_request, transaction, emit, throw, lift, mbind, mret, M_bind, M_ret in *;
  simpl in *.

Ltac script_goal :=
  unfold handle, complete, request_onsuccess, request_onerror,
    getAll_onsuccess, fetch_then, catch, saveRecord, uploadPizza, fetch,
    idb_request, transaction, emit, throw, lift, mbind, mret, M_bind, M_ret;
  simpl.

Ltac count_drains :=
  rewrite ?drains_app; unfold drains; simpl; lia.

Section event_loop.
Implicit Types (s : State) (q : Request) (ev : Event).

Lemma run_app evs1 evs2 s :
  run (evs1 ++ evs2) s = run evs1 s ≫= run evs2.
Proof.
  revert s. induction evs1 as [|ev evs1 IH]; intros s; simpl; [done|].
  destruct (step ev s); simpl; auto.
Qed.

Lemma run_app_Some evs1 evs2 s s1 :
  run evs1 s = Some s1 → run (evs1 ++ evs2) s = run evs2 s1.
Proof. intros H. by rewrite run_app, H. Qed.

(** Serving the oldest request. *)
Lemma step_idb_add r rest s :
  pending s = ReqAdd r :: rest →
  step EvIdb s = Some (set_store (store_add r (store s)) (set_pending rest s)).
Proof. intros H. unfold step. by rewrite H. Qed.

Lemma step_idb_clear rest s :
  pending s = ReqClear :: rest →
  step EvIdb s = Some (set_store (store_clear (store s)) (set_pending rest s)).
Proof. intros H. unfold step. by rewrite H. Qed.

Lemma step_idb_getAll rest s :
  pending s = ReqGetAll :: rest →
  step EvIdb s =
    Some (handle (getAll_onsuccess (getAll (store s))) (set_pending rest s)).
Proof.
  intros H. unfold step. by rewrite H.
Qed.

Lemma step_idb_store q rest s s' :
  pending s = q :: rest → step EvIdb s = Some s' →
  store s' = apply_request q (store s) ∧ pending s' = rest ∧ db s' = db s.
Proof.
  intros Hq Hstep. unfold step in Hstep. rewrite Hq in Hstep.
  destruct q; script; repeat case_match; by simplify_eq.
Qed.

(** Serving the requests ahead of a given point of the queue. *)
Lemma run_idb_prefix qs rest s :
  pending s = qs ++ rest →
  ∃ s', run (repeat EvIdb (length qs)) s = Some s' ∧
        store s' = foldl (λ st q, apply_request q st) (store s) qs ∧
        pending s' = rest ∧ db s' = db s.
Proof.
  revert s. induction qs as [|q qs IH]; intros s Hqs.
  - by exists s.
  - destruct (step EvIdb s) as [s1|] eqn:Hstep.
    2:{ unfold step in Hstep. by rewrite Hqs in Hstep. }
    destruct (step_idb_store q (qs ++ rest) s s1) as (Hst & Hp & Hdb); [done..|].
    destruct (IH s1) as (s' & Hrun & Hst' & Hp' & Hdb'); [done|].
    exists s'. split_and!; [| |done|congruence].
    + change (run (repeat EvIdb (length (q :: qs))) s)
        with (step EvIdb s ≫= run (repeat EvIdb (length qs))).
      by rewrite Hstep.
    + rewrite Hst'. simpl. by rewrite Hst.
Qed.

(** Serving all of them: the store ends up as [settled_store] says. *)
Lemma run_idb_all s :
  ∃ s', run (repeat EvIdb (length (pending s))) s = Some s' ∧
        store s' = settled_store s ∧ pending s' = [] ∧ db s' = db s.
Proof. apply run_idb_prefix. by rewrite app_nil_r. Qed.

(** While records are saved and written, in whatever interleaving, the store
    the pending requests lead to grows by the saved records, in order. *)
Lemma settled_store_saving evs s s' :
  db s = Some Connection → saving evs → run evs s = Some s' →
  db s' = Some Connection ∧
  settled_store s' = store_add_all (saved evs) (settled_store s).
Proof.
  intros Hdb Hevs. revert s Hdb.
  induction Hevs as [|ev evs [->|[r ->]] _ IH]; intros s Hdb Hrun.
  - simpl in Hrun. by simplify_eq.
  - simpl in Hrun. destruct (pending s) as [|q rest] eqn:Hq; [done|].
    assert (step EvIdb s = Some (handle (complete q) (set_pending rest s)))
      as Hstep by (unfold step; by rewrite Hq).
    destruct (step_idb_store q rest s _ Hq Hstep) as (Hst & Hp & Hdb').
    destruct (IH _ (eq_trans Hdb' Hdb) Hrun) as [? ->].
    split; [done|]. f_equal.
    unfold settled_store. by rewrite Hst, Hp, Hq.
  - simpl in Hrun.
    assert (handle (saveRecord r) s =
            set_pending (pending s ++ [ReqAdd r])
              (set_trace (trace s ++ [Idb (ReqAdd r)]) s)) as Hs0.
    { script_goal. by rewrite Hdb. }
    rewrite Hs0 in Hrun. apply IH in Hrun as [? ->]; [|done].
    split; [done|].
    change (saved (EvSaveRecord r :: evs)) with (r :: saved evs).
    rewrite store_add_all_cons. f_equal.
    unfold settled_store. simpl. by rewrite foldl_app.
Qed.

Lemma settled_store_wf s : store_wf (store s) → store_wf (settled_store s).
Proof.
  unfold settled_store. generalize (store s).
  induction (pending s) as [|q qs IH]; intros st Hwf; simpl; [done|].
  by apply IH, apply_request_wf.
Qed.

(** X1. A flush started after such a stretch reads, when its turn comes,
    what the requests pending at the start of the stretch lead to (the
    records in the store when none was pending) followed by every record
    saved since, however the [saveRecord] calls were interleaved with the
    storage layer's progress: requests are served in the order they were
    made. *)
Lemma drain_after_saving evs s s1 :
  db s = Some Connection → store_wf (store s) → saving evs →
  run (evs ++ [EvOnline]) s = Some s1 →
  ∃ s2 s3,
    run (repeat EvIdb (length (pending s1) - 1)) s1 = Some s2 ∧
    pending s2 = [ReqGetAll] ∧
    getAll (store s2) = getAll (settled_store s) ++ saved evs ∧
    (pending s = [] → getAll (store s2) = getAll (store s) ++ saved evs) ∧
    step EvIdb s2 = Some s3 ∧
    store s3 = store s2.
Proof.
  intros Hdb Hwf Hevs Hrun. rewrite run_app in Hrun.
  destruct (run evs s) as [s0|] eqn:Hrun0; [|done]. simpl in Hrun.
  destruct (settled_store_saving evs s s0 Hdb Hevs Hrun0) as [Hdb0 Hsettled].
  assert (s1 = set_pending (pending s0 ++ [ReqGetAll])
                 (set_trace (trace s0 ++ [Idb ReqGetAll]) (set_onLine true s0)))
    as ->.
  { revert Hrun. script_goal. rewrite Hdb0. simpl. congruence. }
  destruct (run_idb_prefix (pending s0) [ReqGetAll]
              (set_pending (pending s0 ++ [ReqGetAll])
                 (set_trace (trace s0 ++ [Idb ReqGetAll]) (set_onLine true s0))))
    as (s2 & Hrun2 & Hst2 & Hp2 & _); [done|].
  exists s2, (handle (getAll_onsuccess (getAll (store s2))) (set_pending [] s2)).
  split_and!.
  - simpl. rewrite length_app. simpl.
    by replace (length (pending s0) + 1 - 1) with (length (pending s0)) by lia.
  - done.
  - rewrite Hst2. simpl. fold (settled_store s0). rewrite Hsettled.
    by apply getAll_add_all, settled_store_wf.
  - intros Hidle. rewrite Hst2. simpl. fold (settled_store s0).
    rewrite Hsettled. unfold settled_store at 1. rewrite Hidle. simpl.
    by apply getAll_add_all.
  - by apply step_idb_getAll.
  - script_goal. by case_bool_decide.
Qed.

(** X2. Over a whole run, the [getAll] calls made never outnumber the
    events that can start a flush ([online] events and successful
    connections). *)
Lemma flushes_bounded evs s s' :
  run evs s = Some s' →
  (drains (trace s') ≤ drains (trace s) + triggers evs)%nat.
Proof.
  revert s. induction evs as [|ev evs IH]; intros s Hrun; simpl in Hrun.
  - simplify_eq. unfold triggers. simpl. lia.
  - destruct (step ev s) as [s1|] eqn:Hstep; [|done].
    specialize (IH s1 Hrun).
    assert (drains (trace s1) ≤
            drains (trace s) + (if is_trigger ev then 1 else 0))%nat as Hone.
    { destruct ev; simpl in Hstep; simpl.
      - destruct (db s); [done|]. script.
        destruct (onLine s); simplify_eq; simpl; count_drains.
      - destruct (db s); [done|]. script. simplify_eq. simpl. count_drains.
      - script. destruct (db s) as [[]|]; simplify_eq; simpl; count_drains.
      - simplify_eq. simpl. lia.
      - script. destruct (db s) as [[]|]; simplify_eq; simpl; count_drains.
      - destruct (pending s) as [|q rest]; [done|].
        destruct q; script; simplify_eq; simpl; try lia.
        case_bool_decide; simpl; count_drains.
      - destruct (inflight s !! i); [|done]. simplify_eq.
        destruct o as [|status [v|]]; script; try count_drains.
        destruct (prop_message v) as [m|e]; simpl; try count_drains.
        destruct (truthy m); simpl; try count_drains.
        destruct (db s) as [[]|]; simpl; count_drains.
      - simplify_eq. simpl. lia. }
    unfold triggers in *. rewrite filter_cons.
    destruct (is_trigger ev); case_decide; simpl in *; try done; lia.
Qed.

Lemma page_load_inv st online : store_wf st → page_inv (page_load st online).
Proof. intros Hwf. split; simpl; done. Qed.

Lemma step_inv ev s s' : page_inv s → step ev s = Some s' → page_inv s'.
Proof.
  intros [Hwf Hp Hf Hb] Hstep.
  assert (Hdel : ∀ i, Forall (λ body, body ≠ []) (delete i (inflight s))).
  { intros i. by apply Forall_delete. }
  destruct ev; simpl in Hstep.
  - destruct (db s) eqn:Hdb; [done|]. simplify_eq.
    script. destruct (onLine s); simpl; split; simpl; auto.
  - destruct (db s) eqn:Hdb; [done|]. simplify_eq.
    script. split; simpl; rewrite ?Hdb; auto.
  - simplify_eq. script.
    destruct (db s) as [[]|] eqn:Hdb; split; simpl; rewrite ?Hdb; auto.
  - simplify_eq. split; simpl; auto.
  - simplify_eq. script.
    destruct (db s) as [[]|] eqn:Hdb; split; simpl; rewrite ?Hdb; auto.
  - destruct (pending s) as [|q rest] eqn:Hq; [done|]. simplify_eq.
    assert (db s = Some Connection) as Hdb by (by apply Hp).
    destruct q; script;
      try (split; simpl; by auto using store_add_wf, store_clear_wf).
    case_bool_decide as Hlen; simpl; split; simpl; auto.
    apply Forall_app; split; [done|]. apply Forall_singleton.
    intros E. rewrite E in Hlen. simpl in Hlen. lia.
  - destruct (inflight s !! i) as [body|] eqn:Hi; [|done]. simplify_eq.
    assert (db s = Some Connection) as Hdb.
    { apply Hf. intros E. by rewrite E in Hi. }
    destruct o as [|status [v|]]; script; try (split; simpl; by auto).
    destruct (prop_message v) as [m|e]; simpl; try (split; simpl; by auto).
    destruct (truthy m); simpl; rewrite ?Hdb; simpl; split; simpl; by auto.
  - simplify_eq. split; simpl; auto; done.
Qed.

Lemma run_inv evs s s' : page_inv s → run evs s = Some s' → page_inv s'.
Proof.
  revert s. induction evs as [|ev evs IH]; intros s Hinv Hrun; simpl in Hrun.
  - by simplify_eq.
  - destruct (step ev s) as [s1|] eqn:Hstep; [|done].
    eauto using step_inv.
Qed.

Lemma reachable_inv s : reachable s → page_inv s.
Proof.
  intros (online & evs & Hrun).
  eapply run_inv; [|done]. apply page_load_inv, createObjectStore_wf.
Qed.
End event_loop.

(** ** The sync engine *)

Section sync_engine.
Implicit Types (s : State) (o : FetchOutcome) (v : JSON).

Lemma reachable_queued_offline : reachable queued_offline.
Proof.
  exists false, [EvOpenSuccess; EvSaveRecord Zesty; EvIdb].
  vm_compute. reflexivity.
Qed.

Lemma reachable_flushing : reachable flushing.
Proof.
  exists false, [EvOpenSuccess; EvSaveRecord Zesty; EvIdb; EvOnline; EvIdb].
  vm_compute. reflexivity.
Qed.

Lemma settled_store_clear_last s qs :
  pending s = qs ++ [ReqClear] → records (settled_store s) = ∅.
Proof. intros H. unfold settled_store. by rewrite H, foldl_app. Qed.

(** A run of [saveRecord] calls on a connected page queues one [add] each
    and touches nothing else. *)
Lemma run_saves rs s :
  db s = Some Connection →
  ∃ s1, run (map EvSaveRecord rs) s = Some s1 ∧
        db s1 = db s ∧ onLine s1 = onLine s ∧ store s1 = store s ∧
        pending s1 = pending s ++ map ReqAdd rs ∧
        inflight s1 = inflight s ∧
        trace s1 = trace s ++ map (λ r, Idb (ReqAdd r)) rs.
Proof.
  revert s. induction rs as [|r rs IH]; intros s Hdb.
  - exists s. split_and!; by rewrite ?app_nil_r.
  - assert (handle (saveRecord r) s =
            set_pending (pending s ++ [ReqAdd r])
              (set_trace (trace s ++ [Idb (ReqAdd r)]) s)) as Hs0.
    { script. by rewrite Hdb. }
    destruct (IH (set_pending (pending s ++ [ReqAdd r])
                    (set_trace (trace s ++ [Idb (ReqAdd r)]) s)))
      as (s1 & Hrun & ? & ? & ? & Hp & ? & Ht); [done|].
    simpl in *. exists s1. split_and!; try done.
    + by rewrite Hs0.
    + by rewrite Hp, <-app_assoc.
    + by rewrite Ht, <-app_assoc.
Qed.

(** Serving a block of [add] requests at the head of the queue. *)
Lemma run_idb_adds rs rest s :
  pending s = map ReqAdd rs ++ rest →
  ∃ s1, run (repeat EvIdb (length rs)) s = Some s1 ∧
        db s1 = db s ∧ onLine s1 = onLine s ∧
        store s1 = store_add_all rs (store s) ∧
        pending s1 = rest ∧ inflight s1 = inflight s ∧ trace s1 = trace s.
Proof.
  revert s. induction rs as [|r rs IH]; intros s Hq.
  - exists s. by split_and!.
  - destruct (IH (set_store (store_add r (store s))
                    (set_pending (map ReqAdd rs ++ rest) s)))
      as (s1 & Hrun & ? & ? & ? & ? & ? & ?); [done|].
    exists s1. split_and!; try done.
    change (run (repeat EvIdb (length (r :: rs))) s)
      with (step EvIdb s ≫= run (repeat EvIdb (length rs))).
    by rewrite (step_idb_add r (map ReqAdd rs ++ rest)).
Qed.
End sync_engine.

(** C9. A call of [saveRecord] or [uploadPizza] made while the global [db]
    is still undefined throws a [TypeError] at [db.transaction]: the state is
    left as it was, so no request is queued, no record is stored and nothing
    is posted; as an event handler the call only leaves the uncaught error. *)
Theorem undefined_db_fails (s : State) (r : JSON) :
  db s = None →
  saveRecord r s = (Throw undefined_db, s) ∧
  uploadPizza s = (Throw undefined_db, s) ∧
  step (EvSaveRecord r) s = Some (set_trace (trace s ++ [Uncaught undefined_db]) s) ∧
  step EvOnline s =
    Some (set_trace (trace s ++ [Uncaught undefined_db]) (set_onLine true s)) ∧
  ∀ ev s', (ev = EvSaveRecord r ∨ ev = EvOnline) → step ev s = Some s' →
    store s' = store s ∧ pending s' = pending s ∧ inflight s' = inflight s ∧
    posted (trace s') = posted (trace s).
Proof.
  intros Hdb.
  assert (saveRecord r s = (Throw undefined_db, s)) as Hsave.
  { unfold saveRecord, mbind, M_bind, transaction. by rewrite Hdb. }
  assert (uploadPizza s = (Throw undefined_db, s)) as Hup.
  { unfold uploadPizza, mbind, M_bind, transaction. by rewrite Hdb. }
  assert (uploadPizza (set_onLine true s) = (Throw undefined_db, set_onLine true s))
    as Hup'.
  { unfold uploadPizza, mbind, M_bind, transaction. simpl. by rewrite Hdb. }
  assert (∀ t : list Effect, posted (t ++ [Uncaught undefined_db]) = posted t)
    as Hposted.
  { intros t. unfold posted. rewrite omap_app. simpl. by rewrite app_nil_r. }
  split_and!; [done|done|..].
  - simpl. unfold handle. by rewrite Hsave.
  - simpl. unfold handle. by rewrite Hup'.
  - intros ev s' [->| ->] Hstep; simpl in Hstep; unfold handle in Hstep;
      rewrite ?Hsave, ?Hup' in Hstep; simplify_eq; simpl; by rewrite Hposted.
Qed.

Lemma undefined_db_fails_witness :
  db (page_load createObjectStore true) = None ∧
  step (EvSaveRecord Zesty) (page_load createObjectStore true) =
    Some (set_trace [Uncaught undefined_db] (page_load createObjectStore true)).
Proof.
  split; [reflexivity|].
  apply (undefined_db_fails (page_load createObjectStore true) Zesty).
  reflexivity.
Defined.

(** C1, as stated, fails: a response with status 500 whose body is the JSON
    object without fields is a failure in the words of the specification, yet
    the promise chain never looks at the status, finds no [message], calls
    [clear()] and raises the alert. *)
Lemma status_500_clears_queue :
  ¬ (∀ s i body o,
       inflight s !! i = Some body → reported_failure o → queue_kept s i o).
Proof.
  intros H.
  destruct (H flushing 0 [Zesty] (Response 500 (Some (JObj []))))
    as (s' & err & Hstep & _ & Hpending & _).
  - reflexivity.
  - left. lia.
  - simpl in Hstep. script. by simplify_eq.
Qed.

(** The test is on the truthiness of [message], not on its presence: a body
    whose [message] is the empty string is taken for an acceptance too. *)
Example empty_message_clears_queue :
  (λ s, (pending s, trace s)) <$>
    step (EvFetchDone 0 (Response 200 (Some (JObj [("message", JStr "")])))) flushing
  = Some ([ReqClear],
          [Idb (ReqAdd Zesty); Idb ReqGetAll; Fetch [Zesty]; Idb ReqClear;
           confirmation]).
Proof. vm_compute. reflexivity. Qed.

(** C1, amended. When the submission is rejected the way the code tests for
    it (the fetch rejects, the body is not JSON or is [null], or the parsed
    body has a truthy [message], whatever the status), the store and the
    pending requests are as before, so [clear()] is not called, the error
    goes to the console and no alert is raised. *)
Theorem rejected_submission_keeps_queue (s : State) (i : nat) (body : list JSON)
    (o : FetchOutcome) :
  inflight s !! i = Some body → rejected o → queue_kept s i o.
Proof.
  intros Hi Hrej. unfold queue_kept. simpl. rewrite Hi.
  destruct o as [|status [v|]]; simpl in Hrej.
  - eexists _, _. split; [reflexivity|]. by script.
  - destruct Hrej as [->|(m & Hm & Ht)].
    + eexists _, _. split; [reflexivity|]. by script.
    + eexists _, _. split; [reflexivity|]. script. rewrite Hm. simpl.
      rewrite Ht. by simpl.
  - eexists _, _. split; [reflexivity|]. by script.
Qed.

Lemma rejected_submission_keeps_queue_witness :
  inflight flushing !! 0 = Some [Zesty] ∧
  rejected (Response 400 (Some (JObj [("message", JStr "Pizza validation failed")]))) ∧
  queue_kept flushing 0
    (Response 400 (Some (JObj [("message", JStr "Pizza validation failed")]))).
Proof.
  assert (rejected (Response 400 (Some (JObj [("message", JStr "Pizza validation failed")]))))
    as Hrej.
  { right. exists (JStr "Pizza validation failed"). split; reflexivity. }
  split_and!; [reflexivity|exact Hrej|].
  apply (rejected_submission_keeps_queue flushing 0 [Zesty]); [reflexivity|exact Hrej].
Defined.

(** C4. On a reachable page, when the response to a posted batch (which is
    never empty) parses to a value without a [message] property, the promise
    chain calls [clear()] and then raises the alert, in that order and with
    nothing else; once the storage layer has served the requests pending at
    that point, the last of which is the [clear], the store holds no record. *)
Theorem accepted_submission_clears (s : State) (i : nat) (body : list JSON)
    (status : Z) (v : JSON) :
  reachable s →
  inflight s !! i = Some body →
  prop_message v = Ok None →
  ∃ s' s'',
    step (EvFetchDone i (Response status (Some v))) s = Some s' ∧
    body ≠ [] ∧
    store s' = store s ∧
    pending s' = pending s ++ [ReqClear] ∧
    trace s' = trace s ++ [Idb ReqClear; confirmation] ∧
    run (repeat EvIdb (length (pending s'))) s' = Some s'' ∧
    records (store s'') = ∅ ∧
    getAll (store s'') = [].
Proof.
  intros Hreach Hi Hmsg.
  destruct (reachable_inv s Hreach) as [_ _ Hf Hb].
  assert (db s = Some Connection) as Hdb.
  { apply Hf. intros E. by rewrite E in Hi. }
  assert (body ≠ []) as Hbody.
  { rewrite Forall_forall in Hb. eapply Hb, list_elem_of_lookup_2, Hi. }
  set (s' := mkState (db s) (onLine s) (store s) (pending s ++ [ReqClear])
               (delete i (inflight s)) (trace s ++ [Idb ReqClear; confirmation])).
  assert (step (EvFetchDone i (Response status (Some v))) s = Some s') as Hstep.
  { simpl. rewrite Hi. f_equal. script. rewrite Hmsg. simpl. rewrite Hdb. simpl.
    unfold s', set_trace, set_pending, set_inflight; simpl.
    by rewrite <-app_assoc. }
  destruct (run_idb_all s') as (s'' & Hrun & Hst & _ & _).
  assert (records (store s'') = ∅) as Hempty.
  { rewrite Hst. by apply (settled_store_clear_last s' (pending s)). }
  exists s', s''. split_and!; try done. by apply getAll_empty.
Qed.

Lemma accepted_submission_clears_witness :
  reachable flushing ∧
  inflight flushing !! 0 = Some [Zesty] ∧
  prop_message (JArr [Zesty]) = Ok None ∧
  ∃ s' s'',
    step (EvFetchDone 0 (Response 200 (Some (JArr [Zesty])))) flushing = Some s' ∧
    [Zesty] ≠ [] ∧
    store s' = store flushing ∧
    pending s' = pending flushing ++ [ReqClear] ∧
    trace s' = trace flushing ++ [Idb ReqClear; confirmation] ∧
    run (repeat EvIdb (length (pending s'))) s' = Some s'' ∧
    records (store s'') = ∅ ∧
    getAll (store s'') = [].
Proof.
  split_and!; [exact reachable_flushing|reflexivity|reflexivity|].
  apply (accepted_submission_clears flushing 0 [Zesty] 200 (JArr [Zesty]));
    [exact reachable_flushing|reflexivity|reflexivity].
Defined.

(** C10. On a store whose keys are below its generator: a call of
    [saveRecord] leaves the store as it is and the [add] it queued, once
    served, keeps every record under its key; serving a [getAll] leaves the
    whole store unchanged; and whenever a turn of the event loop makes a
    record disappear from under its key, that turn served a [clear]. *)
Theorem only_clear_removes (s : State) :
  store_wf (store s) →
  (∀ r s', step (EvSaveRecord r) s = Some s' → store s' = store s) ∧
  (∀ r rest s' k v,
     pending s = ReqAdd r :: rest → step EvIdb s = Some s' →
     records (store s) !! k = Some v → records (store s') !! k = Some v) ∧
  (∀ rest s',
     pending s = ReqGetAll :: rest → step EvIdb s = Some s' → store s' = store s) ∧
  (∀ ev s' k v,
     step ev s = Some s' →
     records (store s) !! k = Some v → records (store s') !! k ≠ Some v →
     ev = EvIdb ∧ ∃ rest, pending s = ReqClear :: rest).
Proof.
  intros Hwf.
  assert (Hadd : ∀ r k v, records (store s) !! k = Some v →
                          records (store_add r (store s)) !! k = Some v).
  { intros r k v Hk. simpl. rewrite lookup_insert_ne; [done|].
    intros <-. by rewrite store_wf_fresh in Hk. }
  split_and!.
  - intros r s' Hstep. simpl in Hstep. script.
    destruct (db s) as [[]|]; by simplify_eq.
  - intros r rest s' k v Hq Hstep Hk.
    destruct (step_idb_store _ _ _ _ Hq Hstep) as (-> & _ & _). by apply Hadd.
  - intros rest s' Hq Hstep.
    by destruct (step_idb_store _ _ _ _ Hq Hstep) as (-> & _ & _).
  - intros ev s' k v Hstep Hk Hgone.
    destruct ev; simpl in Hstep.
    + destruct (db s); [done|]. script.
      destruct (onLine s); simplify_eq; by destruct Hgone.
    + destruct (db s); [done|]. script. by simplify_eq.
    + script. destruct (db s) as [[]|]; simplify_eq; by destruct Hgone.
    + by simplify_eq.
    + script. destruct (db s) as [[]|]; simplify_eq; by destruct Hgone.
    + destruct (pending s) as [|q rest] eqn:Hq; [done|].
      destruct (step_idb_store q rest s s') as (Hst & _ & _); [done| |].
      { unfold step. by rewrite Hq. }
      rewrite Hst in Hgone. destruct q; simpl in Hgone.
      * destruct Hgone. by apply Hadd.
      * by destruct Hgone.
      * eauto.
    + destruct (inflight s !! i); [|done]. simplify_eq.
      destruct Hgone. rewrite <-Hk. f_equal. f_equal.
      destruct o as [|status [w|]]; script; try done.
      destruct (prop_message w) as [m|e]; simpl; [|done].
      destruct (truthy m); simpl; [done|].
      by destruct (db s) as [[]|].
    + by simplify_eq.
Qed.

Lemma only_clear_removes_witness :
  store_wf (store queued_offline) ∧
  ∀ r s', step (EvSaveRecord r) queued_offline = Some s' →
          store s' = store queued_offline.
Proof.
  assert (store_wf (store queued_offline)) as Hwf.
  { apply store_add_wf, createObjectStore_wf. }
  split; [exact Hwf|].
  apply (only_clear_removes queued_offline Hwf).
Defined.

(** C8, as stated, fails: the success handler of the storage connection
    starts a flush only behind [if (navigator.onLine)]; a page that connects
    while offline starts none. *)
Lemma offline_connection_starts_no_flush :
  ¬ (∀ st online s',
       step EvOpenSuccess (page_load st online) = Some s' →
       drains (trace s') = 1).
Proof.
  intros H.
  specialize (H (store_add Zesty createObjectStore) false
                (mkState (Some Connection) false (store_add Zesty createObjectStore)
                   [] [] []) eq_refl).
  vm_compute in H. discriminate.
Qed.

(** C8, amended. A turn of the event loop makes a flush attempt reach its
    [getAll] exactly in two cases: an [online] event, once per event (and
    not at all while [db] is undefined, where [uploadPizza] throws), and the
    success of the storage connection, once and only if [navigator.onLine]
    holds at that moment.  No other event starts a flush. *)
Theorem flush_triggers (ev : Event) (s s' : State) :
  step ev s = Some s' →
  drains (trace s') =
    drains (trace s) +
    match ev with
    | EvOnline => match db s with Some _ => 1 | None => 0 end
    | EvOpenSuccess => if onLine s then 1 else 0
    | _ => 0
    end.
Proof.
  intros Hstep.
  destruct ev; simpl in Hstep.
  - destruct (db s); [done|]. script.
    destruct (onLine s); simplify_eq; simpl; count_drains.
  - destruct (db s); [done|]. script. simplify_eq. simpl. count_drains.
  - script. destruct (db s) as [[]|]; simplify_eq; simpl; count_drains.
  - simplify_eq. simpl. lia.
  - script. destruct (db s) as [[]|]; simplify_eq; simpl; count_drains.
  - destruct (pending s) as [|q rest]; [done|].
    destruct q; script; simplify_eq; simpl; try lia.
    case_bool_decide; simpl; count_drains.
  - destruct (inflight s !! i); [|done]. simplify_eq.
    destruct o as [|status [v|]]; script; try count_drains.
    destruct (prop_message v) as [m|e]; simpl; try count_drains.
    destruct (truthy m); simpl; try count_drains.
    destruct (db s) as [[]|]; simpl; count_drains.
  - simplify_eq. simpl. lia.
Qed.

Lemma flush_triggers_witness :
  step EvOpenSuccess (page_load (store_add Zesty createObjectStore) true) =
    Some (mkState (Some Connection) true (store_add Zesty createObjectStore)
            [ReqGetAll] [] [Idb ReqGetAll]) ∧
  drains [Idb ReqGetAll] = drains [] + 1.
Proof.
  split; [reflexivity|].
  apply (flush_triggers EvOpenSuccess
           (page_load (store_add Zesty createObjectStore) true)
           (mkState (Some Connection) true (store_add Zesty createObjectStore)
              [ReqGetAll] [] [Idb ReqGetAll])).
  reflexivity.
Defined.

(** C3. On a connected page with no request pending, [saveRecord(r1)], ...,
    [saveRecord(rn)] followed by a flush: when the [getAll] of the flush is
    served, its success handler receives the records already stored followed
    by [r1, ..., rn] in that order (exactly [r1, ..., rn] on a queue that was
    empty), that batch is what gets posted, and serving the [getAll] leaves
    the store as it was.  When the result is empty the handler does nothing:
    no request, no console output, no exception. *)
Theorem drain_returns_enqueued (s : State) (rs : list JSON) :
  db s = Some Connection → pending s = [] → store_wf (store s) →
  ∃ s1 s2,
    run (map EvSaveRecord rs ++ EvOnline :: repeat EvIdb (length rs)) s = Some s1 ∧
    pending s1 = [ReqGetAll] ∧
    step EvIdb s1 = Some s2 ∧
    s2 = handle (getAll_onsuccess (getAll (store s) ++ rs)) (set_pending [] s1) ∧
    store s2 = store s1 ∧
    getAll (store s2) = getAll (store s) ++ rs ∧
    trace s2 =
      trace s ++ map (λ r, Idb (ReqAdd r)) rs ++ Idb ReqGetAll ::
      match getAll (store s) ++ rs with
      | [] => []
      | result => [Fetch result]
      end.
Proof.
  intros Hdb Hq Hwf.
  destruct (run_saves rs s Hdb) as (sa & Hrun_a & Hdb_a & _ & Hst_a & Hp_a & _ & Ht_a).
  rewrite Hq in Hp_a. simpl in Hp_a.
  set (sb := handle uploadPizza (set_onLine true sa)).
  assert (sb = set_pending (map ReqAdd rs ++ [ReqGetAll])
                 (set_trace (trace sa ++ [Idb ReqGetAll]) (set_onLine true sa)))
    as Hsb.
  { unfold sb. script_goal. rewrite Hdb_a, Hdb. simpl. by rewrite Hp_a. }
  destruct (run_idb_adds rs [ReqGetAll] sb) as (s1 & Hrun_1 & _ & _ & Hst_1 & Hp_1 & _ & Ht_1).
  { by rewrite Hsb. }
  assert (getAll (store s1) = getAll (store s) ++ rs) as Hall.
  { rewrite Hst_1, Hsb. simpl. rewrite Hst_a. by apply getAll_add_all. }
  exists s1, (handle (getAll_onsuccess (getAll (store s1))) (set_pending [] s1)).
  split_and!.
  - rewrite (run_app_Some _ _ _ _ Hrun_a).
    change (run (EvOnline :: ?evs) sa) with (run evs sb). done.
  - done.
  - by apply step_idb_getAll.
  - by rewrite Hall.
  - script. by case_bool_decide.
  - script. rewrite <-Hall. by case_bool_decide.
  - rewrite Hall. script.
    assert (trace s1 = trace s ++ map (λ r, Idb (ReqAdd r)) rs ++ [Idb ReqGetAll])
      as Htr.
    { rewrite Ht_1, Hsb. simpl. by rewrite Ht_a, <-app_assoc. }
    destruct (getAll (store s) ++ rs) as [|r0 result]; simpl.
    + by rewrite Htr.
    + rewrite Htr. by rewrite <-!app_assoc.
Qed.

Lemma drain_returns_enqueued_witness :
  db queued_offline = Some Connection ∧
  pending queued_offline = [] ∧
  store_wf (store queued_offline) ∧
  ∃ s1 s2,
    run ([EvSaveRecord Hawaiian; EvSaveRecord Zesty] ++
         EvOnline :: repeat EvIdb 2) queued_offline = Some s1 ∧
    pending s1 = [ReqGetAll] ∧
    step EvIdb s1 = Some s2 ∧
    s2 = handle (getAll_onsuccess (getAll (store queued_offline) ++ [Hawaiian; Zesty]))
           (set_pending [] s1) ∧
    store s2 = store s1 ∧
    getAll (store s2) = getAll (store queued_offline) ++ [Hawaiian; Zesty] ∧
    trace s2 =
      trace queued_offline ++ map (λ r, Idb (ReqAdd r)) [Hawaiian; Zesty] ++
      Idb ReqGetAll ::
      match getAll (store queued_offline) ++ [Hawaiian; Zesty] with
      | [] => []
      | result => [Fetch result]
      end.
Proof.
  assert (store_wf (store queued_offline)) as Hwf.
  { apply store_add_wf, createObjectStore_wf. }
  split_and!; [reflexivity|reflexivity|exact Hwf|].
  apply (drain_returns_enqueued queued_offline [Hawaiian; Zesty]);
    [reflexivity|reflexivity|exact Hwf].
Defined.

(** C5, as stated, fails: [saveRecord] returns right after calling [add],
    with the write still pending.  At that point the store does not hold the
    record, and a browser that dies then and is started again finds the
    queue empty. *)
Lemma save_returns_before_write :
  ¬ (∀ r s1,
       run [EvOpenSuccess; EvSaveRecord r] (page_load createObjectStore false)
         = Some s1 →
       getAll (store s1) = [r]) ∧
  ¬ (∀ r s2,
       run [EvOpenSuccess; EvSaveRecord r; EvCrash; EvOpenSuccess]
           (page_load createObjectStore false) = Some s2 →
       getAll (store s2) = [r]).
Proof.
  split; intros H.
  - specialize (H Zesty (mkState (Some Connection) false createObjectStore
                           [ReqAdd Zesty] [] [Idb (ReqAdd Zesty)]) eq_refl).
    vm_compute in H. discriminate.
  - specialize (H Zesty (mkState (Some Connection) false createObjectStore
                           [] [] [Idb (ReqAdd Zesty)]) eq_refl).
    vm_compute in H. discriminate.
Qed.

(** C5, amended. On a connected page with no request pending, [saveRecord]
    queues an [add] and returns with the store unchanged; once the storage
    layer has served that request the record sits under the key the generator
    held, which no record had, and every other record is as before.  From
    then on the record survives the end of the browser process: the page
    that reconnects reads the old records followed by the new one (the new
    one alone if the queue was empty). *)
Theorem saved_record_survives_restart (s : State) (r : JSON) :
  db s = Some Connection → pending s = [] → store_wf (store s) →
  ∃ s1 s2 s3,
    step (EvSaveRecord r) s = Some s1 ∧
    store s1 = store s ∧
    pending s1 = [ReqAdd r] ∧
    step EvIdb s1 = Some s2 ∧
    records (store s) !! keygen (store s) = None ∧
    records (store s2) = <[keygen (store s) := r]> (records (store s)) ∧
    run [EvCrash; EvOpenSuccess] s2 = Some s3 ∧
    db s3 = Some Connection ∧
    getAll (store s3) = getAll (store s) ++ [r].
Proof.
  intros Hdb Hq Hwf.
  set (s1 := set_pending [ReqAdd r] (set_trace (trace s ++ [Idb (ReqAdd r)]) s)).
  set (s2 := set_store (store_add r (store s)) (set_pending [] s1)).
  assert (step (EvSaveRecord r) s = Some s1) as Hsave.
  { simpl. script_goal. rewrite Hdb. simpl. by rewrite Hq. }
  assert (step EvIdb s1 = Some s2) as Hidb by done.
  destruct (step EvOpenSuccess (mkState None (onLine s2) (store s2) [] [] (trace s2)))
    as [s3|] eqn:Hopen; [|done].
  assert (db s3 = Some Connection ∧ store s3 = store s2) as [Hdb3 Hst3].
  { simpl in Hopen. script. destruct (onLine s); by simplify_eq. }
  exists s1, s2, s3. split_and!; try done.
  - by apply store_wf_fresh.
  - rewrite Hst3. simpl. by apply getAll_add.
Qed.

Lemma saved_record_survives_restart_witness :
  db queued_offline = Some Connection ∧
  pending queued_offline = [] ∧
  store_wf (store queued_offline) ∧
  ∃ s1 s2 s3,
    step (EvSaveRecord Hawaiian) queued_offline = Some s1 ∧
    store s1 = store queued_offline ∧
    pending s1 = [ReqAdd Hawaiian] ∧
    step EvIdb s1 = Some s2 ∧
    records (store queued_offline) !! keygen (store queued_offline) = None ∧
    records (store s2) =
      <[keygen (store queued_offline) := Hawaiian]> (records (store queued_offline)) ∧
    run [EvCrash; EvOpenSuccess] s2 = Some s3 ∧
    db s3 = Some Connection ∧
    getAll (store s3) = getAll (store queued_offline) ++ [Hawaiian].
Proof.
  assert (store_wf (store queued_offline)) as Hwf.
  { apply store_add_wf, createObjectStore_wf. }
  split_and!; [reflexivity|reflexivity|exact Hwf|].
  apply (saved_record_survives_restart queued_offline Hawaiian);
    [reflexivity|reflexivity|exact Hwf].
Defined.


(** On an idle page: one flush, its acceptance, and a second [online] event.
    The second [getAll] reads an empty store and the run has posted the
    batch once. *)
Lemma idle_page_flushes_once (s : State) (status : Z) (v : JSON) :
  db s = Some Connection → pending s = [] → inflight s = [] →
  getAll (store s) ≠ [] →
  prop_message v = Ok None →
  ∃ s1 s2,
    run [EvOnline; EvIdb; EvFetchDone 0 (Response status (Some v));
         EvOffline; EvOnline; EvIdb] s = Some s1 ∧
    pending s1 = [ReqGetAll] ∧
    getAll (store s1) = [] ∧
    step EvIdb s1 = Some s2 ∧
    inflight s2 = [] ∧
    posted (trace s2) = posted (trace s) ++ [getAll (store s)].
Proof.
  destruct s as [d o st p f t0]; simpl. intros -> -> -> Hne Hmsg.
  set (t := t0 ++ [Idb ReqGetAll; Fetch (getAll st); Idb ReqClear;
                   confirmation; Idb ReqGetAll]).
  exists (mkState (Some Connection) true (store_clear st) [ReqGetAll] [] t),
         (mkState (Some Connection) true (store_clear st) [] [] t).
  assert (bool_decide (0 < length (getAll st)) = true) as Hlen.
  { apply bool_decide_eq_true. destruct (getAll st); [done|simpl; lia]. }
  split_and!.
  - simpl. script_goal. rewrite Hlen. simpl. rewrite Hmsg. simpl.
    unfold t. by rewrite <-!app_assoc.
  - done.
  - apply getAll_clear.
  - simpl. script_goal.
    change (getAll {| records := ∅; keygen := keygen st |})
      with (getAll (store_clear st)).
    by rewrite getAll_clear.
  - done.
  - unfold t. simpl. by rewrite posted_app.
Qed.

(** A [clear()] that has been called but not yet served is lost with the
    browser process: the page that comes back posts the batch again. *)
Example crash_loses_pending_clear :
  (λ s, posted (trace s)) <$>
    run [EvOnline; EvIdb; EvFetchDone 0 (Response 200 (Some (JArr [Zesty])));
         EvCrash; EvOpenSuccess; EvIdb] queued_offline
  = Some [[Zesty]; [Zesty]].
Proof. vm_compute. reflexivity. Qed.




(** C7. The window between [getAll] and [clear] is reachable.  From a fresh
    installation: [r1] is saved and written while offline; the page goes
    online and the [getAll] of the flush completes, posting [[r1]]; only then
    is [r2] saved and written, under key 2; the server accepts the batch and
    the [clear] that follows empties the store.  [r2] was in the store, is
    gone, and the only batch ever posted is [[r1]]. *)
Theorem data_loss_window_reachable (r1 r2 : JSON) :
  ∃ s1 s2 s3,
    run [EvOpenSuccess; EvSaveRecord r1; EvIdb; EvOnline; EvIdb]
        (page_load createObjectStore false) = Some s1 ∧
    pending s1 = [] ∧
    inflight s1 = [[r1]] ∧
    run [EvSaveRecord r2; EvIdb] s1 = Some s2 ∧
    records (store s2) !! 2%positive = Some r2 ∧
    getAll (store s2) = [r1; r2] ∧
    run [EvFetchDone 0 (Response 200 (Some (JArr [r1]))); EvIdb] s2 = Some s3 ∧
    records (store s3) = ∅ ∧
    pending s3 = [] ∧
    inflight s3 = [] ∧
    trace s3 = [Idb (ReqAdd r1); Idb ReqGetAll; Fetch [r1]; Idb (ReqAdd r2);
                Idb ReqClear; confirmation] ∧
    posted (trace s3) = [[r1]].
Proof.
  exists (mkState (Some Connection) true (store_add r1 createObjectStore) []
            [[r1]] [Idb (ReqAdd r1); Idb ReqGetAll; Fetch [r1]]),
         (mkState (Some Connection) true
            (store_add r2 (store_add r1 createObjectStore)) [] [[r1]]
            [Idb (ReqAdd r1); Idb ReqGetAll; Fetch [r1]; Idb (ReqAdd r2)]),
         (mkState (Some Connection) true
            (store_clear (store_add r2 (store_add r1 createObjectStore))) [] []
            [Idb (ReqAdd r1); Idb ReqGetAll; Fetch [r1]; Idb (ReqAdd r2);
             Idb ReqClear; confirmation]).
  split_and!; vm_compute; reflexivity.
Qed.

(** C2 does not hold of the code.  In the run below Hawaiian is saved while
    the batch [[Zesty]] is awaiting its response; the [clear] that follows
    the response removes it although no posted batch ever contained it. *)
Theorem unsubmitted_record_removed :
  ¬ (∀ evs1 evs2 s1 s2 k r,
       run evs1 (page_load createObjectStore false) = Some s1 →
       run evs2 s1 = Some s2 →
       records (store s1) !! k = Some r →
       records (store s2) !! k = None →
       ∃ body, body ∈ posted (trace s2) ∧ r ∈ body).
Proof.
  intros H.
  destruct (H [EvOpenSuccess; EvSaveRecord Zesty; EvIdb; EvOnline; EvIdb;
               EvSaveRecord Hawaiian; EvIdb]
              [EvFetchDone 0 (Response 200 (Some (JArr [Zesty]))); EvIdb]
              (mkState (Some Connection) true
                 (store_add Hawaiian (store_add Zesty createObjectStore)) [] [[Zesty]]
                 [Idb (ReqAdd Zesty); Idb ReqGetAll; Fetch [Zesty];
                  Idb (ReqAdd Hawaiian)])
              (mkState (Some Connection) true
                 (store_clear (store_add Hawaiian (store_add Zesty createObjectStore)))
                 [] []
                 [Idb (ReqAdd Zesty); Idb ReqGetAll; Fetch [Zesty];
                  Idb (ReqAdd Hawaiian); Idb ReqClear; confirmation])
              2%positive Hawaiian)
    as (body & Hbody & Hin); [by vm_compute..|].
  vm_compute in Hbody.
  apply list_elem_of_singleton in Hbody as ->.
  apply list_elem_of_singleton in Hin. discriminate.
Qed.

(** ** Where posted records come from *)

Ltac members :=
  repeat match goal with
         | H : _ ∈ _ ++ _ |- _ => apply elem_of_app in H as [H|H]
         | H : _ ∈ _ :: _ |- _ => apply elem_of_cons in H as [H|H]
         | H : _ ∈ [] |- _ => by apply elem_of_nil in H
         end;
  simplify_eq; rewrite ?elem_of_app, ?elem_of_cons; eauto 6.

Lemma page_load_provenance online :
  provenance (page_load createObjectStore online).
Proof.
  split; simpl.
  - intros k r H. by rewrite lookup_empty in H.
  - intros r H. by apply elem_of_nil in H.
  - intros body r H. by apply elem_of_nil in H.
  - intros body H. by apply elem_of_nil in H.
Qed.

Lemma step_provenance ev s s' :
  provenance s → step ev s = Some s' → provenance s'.
Proof.
  intros [Hst Hp Hf Hne] Hstep. destruct ev; simpl in Hstep.
  - destruct (db s); [done|]. script.
    destruct (onLine s); simplify_eq; split; simpl; intros; members.
  - destruct (db s); [done|]. script. simplify_eq.
    split; simpl; intros; members.
  - script. destruct (db s) as [[]|]; simplify_eq; split; simpl; intros; members.
  - simplify_eq. split; simpl; intros; members.
  - script. destruct (db s) as [[]|]; simplify_eq; split; simpl; intros; members.
  - destruct (pending s) as [|q rest] eqn:Hq; [done|].
    assert (∀ r, ReqAdd r ∈ rest → Idb (ReqAdd r) ∈ trace s) as Hrest.
    { intros r Hr. apply Hp. by right. }
    destruct q; script; simplify_eq.
    + split; simpl; [|done..].
      intros k r' Hk. destruct (decide (keygen (store s) = k)) as [<-|Hne'].
      * rewrite lookup_insert_eq in Hk. simplify_eq. apply Hp. by left.
      * rewrite lookup_insert_ne in Hk by done. eauto.
    + case_bool_decide as Hlen; simplify_eq; [|by split].
      split; simpl; intros; try members.
      * left. match goal with H : _ ∈ getAll _ |- _ =>
                apply elem_of_getAll in H as [k Hk] end. eauto.
      * intros E. rewrite E in Hlen. simpl in Hlen. lia.
    + split; simpl; [|done..].
      intros k r' Hk. by rewrite lookup_empty in Hk.
  - destruct (inflight s !! i); [|done]. simplify_eq.
    destruct o as [|status [v|]]; script;
      try solve [split; simpl; intros; simpl in *; members].
    destruct (prop_message v) as [m|e]; simpl;
      try solve [split; simpl; intros; simpl in *; members].
    destruct (truthy m); simpl;
      try solve [split; simpl; intros; simpl in *; members].
    destruct (db s) as [[]|]; simpl; split; simpl; intros; simpl in *; members.
  - simplify_eq. split; simpl; intros; members.
Qed.

Lemma reachable_provenance s : reachable s → provenance s.
Proof.
  intros (online & evs & Hrun).
  assert (∀ evs s0, provenance s0 → run evs s0 = Some s → provenance s) as Hind.
  { clear. intros evs. induction evs as [|ev evs IH]; intros s0 H0 Hrun; simpl in Hrun.
    - by simplify_eq.
    - destruct (step ev s0) as [s1|] eqn:Hstep; [|done].
      eauto using step_provenance. }
  eapply Hind; [|done]. apply page_load_provenance.
Qed.

(** X3. Whatever the page has been through, no POST it made carried an empty
    array: a flush whose [getAll] finds nothing makes no request. *)
Theorem no_empty_batch_posted (s : State) (body : list JSON) :
  reachable s → body ∈ posted (trace s) → body ≠ [].
Proof.
  intros Hreach Hin. apply (prov_nonempty s (reachable_provenance s Hreach)).
  unfold posted in Hin. apply list_elem_of_omap in Hin as (e & He & Hbody).
  destruct e; by simplify_eq.
Qed.

Lemma no_empty_batch_posted_witness :
  reachable flushing ∧ [Zesty] ∈ posted (trace flushing) ∧ [Zesty] ≠ [].
Proof.
  assert ([Zesty] ∈ posted (trace flushing)) as Hin.
  { vm_compute. apply list_elem_of_here. }
  split_and!; [exact reachable_flushing|exact Hin|].
  apply (no_empty_batch_posted flushing [Zesty] reachable_flushing Hin).
Defined.

(** X4. Every record the page ever posted had been handed to [saveRecord]
    before: the sync engine submits nothing of its own making. *)
Theorem posted_records_were_saved (s : State) (body : list JSON) (r : JSON) :
  reachable s → body ∈ posted (trace s) → r ∈ body → Idb (ReqAdd r) ∈ trace s.
Proof.
  intros Hreach Hin Hr.
  apply (prov_posted s (reachable_provenance s Hreach) body); [|done].
  unfold posted in Hin. apply list_elem_of_omap in Hin as (e & He & Hbody).
  destruct e; by simplify_eq.
Qed.

Lemma posted_records_were_saved_witness :
  reachable flushing ∧ [Zesty] ∈ posted (trace flushing) ∧ Zesty ∈ [Zesty] ∧
  Idb (ReqAdd Zesty) ∈ trace flushing.
Proof.
  assert ([Zesty] ∈ posted (trace flushing)) as Hin.
  { vm_compute. apply list_elem_of_here. }
  assert (Zesty ∈ [Zesty]) as Hr by apply list_elem_of_here.
  split_and!; [exact reachable_flushing|exact Hin|exact Hr|].
  apply (posted_records_were_saved flushing [Zesty] Zesty reachable_flushing Hin Hr).
Defined.

(** ** Confirmations and exceptions *)

Lemma alerts_app t1 t2 : alerts (t1 ++ t2) = alerts t1 + alerts t2.
Proof. unfold alerts. by rewrite omap_app, length_app. Qed.

Lemma clears_app t1 t2 : clears (t1 ++ t2) = clears t1 + clears t2.
Proof. unfold clears. by rewrite omap_app, length_app. Qed.

Lemma uncaught_app t1 t2 : uncaught (t1 ++ t2) = uncaught t1 ++ uncaught t2.
Proof. unfold uncaught. by rewrite omap_app. Qed.

Ltac count_effects :=
  rewrite ?alerts_app, ?clears_app, ?posted_app, ?length_app;
  unfold alerts, clears, posted in *; simpl; lia.

(** X5. On every reachable page each confirmation shown to the user stands
    for one [clear()] call and for one posted batch whose response has been
    handled: alerts and [clear()] calls are equal in number, and alerts plus
    the fetches still in flight never exceed the POST requests made. *)
Theorem confirmations_follow_posts (s : State) :
  reachable s →
  clears (trace s) = alerts (trace s) ∧
  (alerts (trace s) + length (inflight s) ≤ length (posted (trace s)))%nat.
Proof.
  intros (online & evs & Hrun).
  assert (∀ evs s0,
            (clears (trace s0) = alerts (trace s0) ∧
             (alerts (trace s0) + length (inflight s0)
                ≤ length (posted (trace s0)))%nat) →
            run evs s0 = Some s →
            clears (trace s) = alerts (trace s) ∧
            (alerts (trace s) + length (inflight s)
               ≤ length (posted (trace s)))%nat)
    as Hind.
  { clear. intros evs. induction evs as [|ev evs IH]; intros s0 H0 Hrun; simpl in Hrun.
    - by simplify_eq.
    - destruct (step ev s0) as [s1|] eqn:Hstep; [|done].
      apply (IH s1); [|done]. clear IH Hrun. destruct H0 as [Hc Ha].
      destruct ev; simpl in Hstep.
      + destruct (db s0); [done|]. script.
        destruct (onLine s0); simplify_eq; simpl; split; count_effects.
      + destruct (db s0); [done|]. script. simplify_eq. simpl. split; count_effects.
      + script. destruct (db s0) as [[]|]; simplify_eq; simpl; split; count_effects.
      + by simplify_eq.
      + script. destruct (db s0) as [[]|]; simplify_eq; simpl; split; count_effects.
      + destruct (pending s0) as [|q rest]; [done|].
        destruct q; script; simplify_eq; simpl; try done.
        case_bool_decide; simpl; split; count_effects.
      + destruct (inflight s0 !! i) as [body|] eqn:Hi; [|done]. simplify_eq.
        pose proof (length_delete (inflight s0) i (mk_is_Some _ _ Hi)) as Hdel.
        pose proof (lookup_lt_Some _ _ _ Hi) as Hlt.
        destruct o as [|status [v|]]; script; try (split; count_effects).
        destruct (prop_message v) as [m|e]; simpl; try (split; count_effects).
        destruct (truthy m); simpl; try (split; count_effects).
        destruct (db s0) as [[]|]; simpl; split; count_effects.
      + simplify_eq. simpl. split; [done|lia]. }
  eapply Hind; [|done]. simpl. split; [done|]. unfold alerts, posted. simpl. lia.
Qed.

Lemma confirmations_follow_posts_witness :
  reachable flushing ∧
  clears (trace flushing) = alerts (trace flushing) ∧
  (alerts (trace flushing) + length (inflight flushing)
     ≤ length (posted (trace flushing)))%nat.
Proof.
  split; [exact reachable_flushing|].
  apply (confirmations_follow_posts flushing reachable_flushing).
Defined.

(** X6. On a connected page no event handler lets an exception escape:
    whatever the event and however a fetch ends, the list of uncaught errors
    stays as it was.  Errors of the submission end in the [.catch] of the
    promise chain. *)
Theorem connected_page_throws_nothing (ev : Event) (s s' : State) :
  db s = Some Connection → step ev s = Some s' →
  uncaught (trace s') = uncaught (trace s).
Proof.
  intros Hdb Hstep. destruct ev; simpl in Hstep; try (by rewrite Hdb in Hstep).
  - script. rewrite Hdb in Hstep. simplify_eq. simpl.
    rewrite uncaught_app. simpl. by rewrite app_nil_r.
  - by simplify_eq.
  - script. rewrite Hdb in Hstep. simplify_eq. simpl.
    rewrite uncaught_app. simpl. by rewrite app_nil_r.
  - destruct (pending s) as [|q rest]; [done|].
    destruct q; script; simplify_eq; simpl; try done.
    case_bool_decide; simpl; [|done].
    rewrite uncaught_app. simpl. by rewrite app_nil_r.
  - destruct (inflight s !! i); [|done]. simplify_eq.
    destruct o as [|status [v|]]; script;
      try (rewrite uncaught_app; simpl; by rewrite app_nil_r).
    destruct (prop_message v) as [m|e]; simpl;
      try (rewrite uncaught_app; simpl; by rewrite app_nil_r).
    destruct (truthy m); simpl;
      try (rewrite uncaught_app; simpl; by rewrite app_nil_r).
    rewrite Hdb. simpl. rewrite !uncaught_app. simpl. by rewrite !app_nil_r.
  - by simplify_eq.
Qed.

Lemma connected_page_throws_nothing_witness :
  db flushing = Some Connection ∧
  step (EvFetchDone 0 NetworkError) flushing =
    Some (mkState (Some Connection) true (store_add Zesty createObjectStore) [] []
            (trace flushing ++ [ConsoleLog (TypeError "Failed to fetch")])) ∧
  uncaught (trace flushing ++ [ConsoleLog (TypeError "Failed to fetch")]) =
    uncaught (trace flushing).
Proof.
  split_and!; [reflexivity|reflexivity|].
  apply (connected_page_throws_nothing (EvFetchDone 0 NetworkError) flushing
           (mkState (Some Connection) true (store_add Zesty createObjectStore) [] []
              (trace flushing ++ [ConsoleLog (TypeError "Failed to fetch")])));
    reflexivity.
Defined.

(** ** Before the connection, after a rejection, at startup *)

(** X7. As long as [request.onsuccess] has not run, nothing the page goes
    through (a failed open, [online] and [offline] events, [saveRecord]
    calls) queues a request, stores a record or posts anything: [db] stays
    undefined and the records handed to [saveRecord] in that period are
    dropped. *)
Theorem nothing_before_connection (evs : list Event) (s s' : State) :
  db s = None → pending s = [] → inflight s = [] →
  Forall (λ ev, ev ≠ EvOpenSuccess) evs →
  run evs s = Some s' →
  db s' = None ∧ store s' = store s ∧ pending s' = [] ∧ inflight s' = [] ∧
  posted (trace s') = posted (trace s).
Proof.
  intros Hdb Hp Hf Hevs. revert s Hdb Hp Hf.
  induction Hevs as [|ev evs Hev _ IH]; intros s Hdb Hp Hf Hrun; simpl in Hrun.
  - by simplify_eq.
  - destruct (step ev s) as [s1|] eqn:Hstep; [|done].
    assert (db s1 = None ∧ store s1 = store s ∧ pending s1 = [] ∧
            inflight s1 = [] ∧ posted (trace s1) = posted (trace s))
      as (Hdb1 & Hst1 & Hp1 & Hf1 & Ht1).
    { destruct ev; simpl in Hstep; try done.
      - rewrite Hdb in Hstep. script. simplify_eq. simpl.
        rewrite posted_app. simpl. by rewrite app_nil_r.
      - script. rewrite Hdb in Hstep. simplify_eq. simpl.
        rewrite posted_app. simpl. by rewrite app_nil_r.
      - by simplify_eq.
      - script. rewrite Hdb in Hstep. simplify_eq. simpl.
        rewrite posted_app. simpl. by rewrite app_nil_r.
      - by rewrite Hp in Hstep.
      - by rewrite Hf in Hstep.
      - by simplify_eq. }
    destruct (IH s1 Hdb1 Hp1 Hf1 Hrun) as (? & ? & ? & ? & ?).
    split_and!; congruence.
Qed.

Lemma nothing_before_connection_witness :
  db (page_load createObjectStore true) = None ∧
  pending (page_load createObjectStore true) = [] ∧
  inflight (page_load createObjectStore true) = [] ∧
  Forall (λ ev, ev ≠ EvOpenSuccess) [EvOpenError; EvSaveRecord Zesty; EvOffline; EvOnline] ∧
  run [EvOpenError; EvSaveRecord Zesty; EvOffline; EvOnline]
      (page_load createObjectStore true)
    = Some (mkState None true createObjectStore [] []
              [ConsoleLogErrorCode; Uncaught undefined_db; Uncaught undefined_db]) ∧
  store (mkState None true createObjectStore [] []
           [ConsoleLogErrorCode; Uncaught undefined_db; Uncaught undefined_db])
    = store (page_load createObjectStore true).
Proof.
  assert (Forall (λ ev, ev ≠ EvOpenSuccess)
            [EvOpenError; EvSaveRecord Zesty; EvOffline; EvOnline]) as Hevs.
  { repeat constructor; discriminate. }
  split_and!; [reflexivity|reflexivity|reflexivity|exact Hevs|reflexivity|].
  apply (nothing_before_connection
           [EvOpenError; EvSaveRecord Zesty; EvOffline; EvOnline]
           (page_load createObjectStore true)
           (mkState None true createObjectStore [] []
              [ConsoleLogErrorCode; Uncaught undefined_db; Uncaught undefined_db]));
    [reflexivity|reflexivity|reflexivity|exact Hevs|reflexivity].
Defined.

(** While no response is accepting and no [clear] is pending, one turn of
    the event loop keeps every stored record, raises no alert, calls no
    [clear()], and a batch it posts holds every record of the store. *)
Lemma step_no_acceptance ev s s' :
  store_wf (store s) → (ReqClear ∉ pending s) → no_acceptance ev →
  step ev s = Some s' →
  store_wf (store s') ∧
  (ReqClear ∉ pending s') ∧
  (∀ k r, records (store s) !! k = Some r → records (store s') !! k = Some r) ∧
  alerts (trace s') = alerts (trace s) ∧
  clears (trace s') = clears (trace s) ∧
  ∃ t, trace s' = trace s ++ t ∧
       ∀ body k r, Fetch body ∈ t → records (store s) !! k = Some r → r ∈ body.
Proof.
  intros Hwf Hnc Hev Hstep.
  assert (∀ e : Effect, (∀ body, e ≠ Fetch body) →
            ∀ body k r, Fetch body ∈ [e] →
              records (store s) !! k = Some r → r ∈ body) as Hone.
  { intros e He body k r Hin. apply list_elem_of_singleton in Hin.
    by destruct (He body). }
  assert (∀ body k r, Fetch body ∈ @nil Effect →
            records (store s) !! k = Some r → r ∈ body) as Hnil.
  { intros body k r Hin. by apply elem_of_nil in Hin. }
  assert (∀ q, q ≠ ReqClear → ReqClear ∉ pending s ++ [q]) as Happ.
  { intros q Hq Hin. apply elem_of_app in Hin as [?|Hin]; [done|].
    apply list_elem_of_singleton in Hin. done. }
  destruct ev; simpl in Hstep.
  - destruct (db s); [done|]. script.
    destruct (onLine s); simplify_eq; simpl; split_and!; auto; try count_effects.
    + exists [Idb ReqGetAll]. split; [done|]. by apply Hone.
    + exists []. split; [by rewrite app_nil_r|done].
  - destruct (db s); [done|]. script. simplify_eq. simpl.
    split_and!; auto; try count_effects.
    exists [ConsoleLogErrorCode]. split; [done|]. by apply Hone.
  - script. destruct (db s) as [[]|]; simplify_eq; simpl;
      split_and!; auto; try count_effects.
    + exists [Idb ReqGetAll]. split; [done|]. by apply Hone.
    + exists [Uncaught undefined_db]. split; [done|]. by apply Hone.
  - simplify_eq. simpl. split_and!; auto.
    exists []. split; [by rewrite app_nil_r|done].
  - script. destruct (db s) as [[]|]; simplify_eq; simpl;
      split_and!; auto; try count_effects.
    + exists [Idb (ReqAdd r)]. split; [done|]. by apply Hone.
    + exists [Uncaught undefined_db]. split; [done|]. by apply Hone.
  - destruct (pending s) as [|q rest] eqn:Hq; [done|].
    assert (ReqClear ∉ rest) as Hrest.
    { intros Hin. apply Hnc. by right. }
    destruct q; script; simplify_eq; simpl.
    + split_and!; auto using store_add_wf.
      * intros k r' Hk. rewrite lookup_insert_ne; [done|].
        intros <-. by rewrite store_wf_fresh in Hk.
      * exists []. split; [by rewrite app_nil_r|done].
    + case_bool_decide; simpl; split_and!; auto; try count_effects.
      * exists [Fetch (getAll (store s))]. split; [done|].
        intros body k r Hin Hk. apply list_elem_of_singleton in Hin.
        simplify_eq. apply elem_of_getAll. eauto.
      * exists []. split; [by rewrite app_nil_r|done].
    + destruct Hnc. by left.
  - destruct (inflight s !! i); [|done]. simplify_eq.
    destruct o as [|status [v|]]; simpl in Hev.
    + script. split_and!; auto; try count_effects.
      eexists [_]. split; [done|]. by apply Hone.
    + destruct Hev as [->|(m & Hm & Ht)].
      * script. split_and!; auto; try count_effects.
        eexists [_]. split; [done|]. by apply Hone.
      * script. rewrite Hm. simpl. rewrite Ht. simpl.
        split_and!; auto; try count_effects.
        eexists [_]. split; [done|]. by apply Hone.
    + script. split_and!; auto; try count_effects.
      eexists [_]. split; [done|]. by apply Hone.
  - simplify_eq. simpl. split_and!; auto.
    + intros Hin. by apply elem_of_nil in Hin.
    + exists []. split; [by rewrite app_nil_r|done].
Qed.

(** X8. Rejections lose nothing and are retried by every later flush.  Over
    any run in which no response is accepting, started with no [clear]
    pending, whatever else happens (saves, [online] and [offline] events,
    requests served, the browser process ending and the page reconnecting):
    every record in the store stays under its key, no alert is raised and
    [clear()] is never called, and every batch posted during the run holds
    every record that was in the store at its start. *)
Theorem rejected_records_are_kept_and_reposted (evs : list Event) (s s' : State) :
  store_wf (store s) → (ReqClear ∉ pending s) →
  Forall no_acceptance evs →
  run evs s = Some s' →
  store_wf (store s') ∧
  (ReqClear ∉ pending s') ∧
  (∀ k r, records (store s) !! k = Some r → records (store s') !! k = Some r) ∧
  alerts (trace s') = alerts (trace s) ∧
  clears (trace s') = clears (trace s) ∧
  ∃ t, trace s' = trace s ++ t ∧
       ∀ body k r, Fetch body ∈ t → records (store s) !! k = Some r → r ∈ body.
Proof.
  intros Hwf Hnc Hevs. revert s Hwf Hnc.
  induction Hevs as [|ev evs Hev _ IH]; intros s Hwf Hnc Hrun; simpl in Hrun.
  - simplify_eq. split_and!; auto.
    exists []. split; [by rewrite app_nil_r|].
    intros body k r Hin. by apply elem_of_nil in Hin.
  - destruct (step ev s) as [s1|] eqn:Hstep; [|done].
    destruct (step_no_acceptance ev s s1 Hwf Hnc Hev Hstep)
      as (Hwf1 & Hnc1 & Hkeep1 & Ha1 & Hc1 & t1 & Ht1 & Hposted1).
    destruct (IH s1 Hwf1 Hnc1 Hrun)
      as (Hwf' & Hnc' & Hkeep' & Ha' & Hc' & t' & Ht' & Hposted').
    split_and!; auto; try congruence.
    exists (t1 ++ t'). split; [by rewrite Ht', Ht1, app_assoc|].
    intros body k r Hin Hk. apply elem_of_app in Hin as [Hin|Hin]; eauto.
Qed.

Lemma rejected_records_are_kept_and_reposted_witness :
  store_wf (store queued_offline) ∧
  (ReqClear ∉ pending queued_offline) ∧
  Forall no_acceptance
    [EvOnline; EvIdb; EvFetchDone 0 NetworkError; EvCrash; EvOpenSuccess; EvIdb] ∧
  run [EvOnline; EvIdb; EvFetchDone 0 NetworkError; EvCrash; EvOpenSuccess; EvIdb]
      queued_offline
    = Some (mkState (Some Connection) true (store_add Zesty createObjectStore) []
              [[Zesty]]
              (trace queued_offline ++
               [Idb ReqGetAll; Fetch [Zesty];
                ConsoleLog (TypeError "Failed to fetch");
                Idb ReqGetAll; Fetch [Zesty]])) ∧
  alerts (trace queued_offline ++
          [Idb ReqGetAll; Fetch [Zesty];
           ConsoleLog (TypeError "Failed to fetch");
           Idb ReqGetAll; Fetch [Zesty]])
    = alerts (trace queued_offline).
Proof.
  assert (store_wf (store queued_offline)) as Hwf.
  { apply store_add_wf, createObjectStore_wf. }
  assert (ReqClear ∉ pending queued_offline) as Hnc.
  { intros Hin. by apply elem_of_nil in Hin. }
  assert (Forall no_acceptance
            [EvOnline; EvIdb; EvFetchDone 0 NetworkError; EvCrash; EvOpenSuccess;
             EvIdb]) as Hevs.
  { repeat apply List.Forall_cons; try apply List.Forall_nil; exact I. }
  split_and!; [exact Hwf|exact Hnc|exact Hevs|by vm_compute|].
  apply (rejected_records_are_kept_and_reposted
           [EvOnline; EvIdb; EvFetchDone 0 NetworkError; EvCrash; EvOpenSuccess;
            EvIdb]
           queued_offline
           (mkState (Some Connection) true (store_add Zesty createObjectStore) []
              [[Zesty]]
              (trace queued_offline ++
               [Idb ReqGetAll; Fetch [Zesty];
                ConsoleLog (TypeError "Failed to fetch");
                Idb ReqGetAll; Fetch [Zesty]]))
           Hwf Hnc Hevs).
  by vm_compute.
Defined.

(** X9. A page that starts online with records left in the store posts them
    in one batch as soon as the storage connection succeeds and its [getAll]
    is served, without any [online] event; the same page starting offline
    connects and does nothing more. *)
Theorem stale_queue_posted_at_startup (st : ObjectStore) :
  getAll st ≠ [] →
  run [EvOpenSuccess; EvIdb] (page_load st true) =
    Some (mkState (Some Connection) true st [] [getAll st]
            [Idb ReqGetAll; Fetch (getAll st)]) ∧
  run [EvOpenSuccess] (page_load st false) =
    Some (mkState (Some Connection) false st [] [] []).
Proof.
  intros Hne.
  assert (bool_decide (0 < length (getAll st)) = true) as Hlen.
  { apply bool_decide_eq_true. destruct (getAll st); [done|simpl; lia]. }
  split; [|done].
  simpl. script_goal. by rewrite Hlen.
Qed.

Lemma stale_queue_posted_at_startup_witness :
  getAll (store_add Zesty createObjectStore) ≠ [] ∧
  run [EvOpenSuccess; EvIdb] (page_load (store_add Zesty createObjectStore) true) =
    Some (mkState (Some Connection) true (store_add Zesty createObjectStore) []
            [getAll (store_add Zesty createObjectStore)]
            [Idb ReqGetAll; Fetch (getAll (store_add Zesty createObjectStore))]).
Proof.
  assert (getAll (store_add Zesty createObjectStore) ≠ []) as Hne.
  { vm_compute. discriminate. }
  split; [exact Hne|].
  apply (stale_queue_posted_at_startup (store_add Zesty createObjectStore) Hne).
Defined.

(** X10. The loss window closes at the call of [clear()]: records saved once
    [clear()] has been called, in any interleaving with the storage layer's
    progress, are not touched by it.  When the pending requests have been
    served the store holds exactly those records, in the order of the
    calls. *)
Theorem saves_after_clear_survive (evs : list Event) (qs : list Request)
    (s s' : State) :
  db s = Some Connection → pending s = qs ++ [ReqClear] →
  saving evs → run evs s = Some s' →
  ∃ s'',
    run (repeat EvIdb (length (pending s'))) s' = Some s'' ∧
    pending s'' = [] ∧
    getAll (store s'') = saved evs.
Proof.
  intros Hdb Hq Hevs Hrun.
  destruct (settled_store_saving evs s s' Hdb Hevs Hrun) as [_ Hsettled].
  destruct (run_idb_all s') as (s'' & Hrun' & Hst & Hp & _).
  exists s''. split_and!; [done..|].
  rewrite Hst, Hsettled.
  assert (settled_store s =
          store_clear (foldl (λ st q, apply_request q st) (store s) qs)) as ->.
  { unfold settled_store. by rewrite Hq, foldl_app. }
  rewrite getAll_add_all by apply store_clear_wf.
  by rewrite getAll_clear.
Qed.

Lemma saves_after_clear_survive_witness :
  db (mkState (Some Connection) true (store_add Zesty createObjectStore)
        [ReqClear] [] []) = Some Connection ∧
  pending (mkState (Some Connection) true (store_add Zesty createObjectStore)
             [ReqClear] [] []) = [] ++ [ReqClear] ∧
  saving [EvSaveRecord Hawaiian; EvIdb; EvSaveRecord Zesty] ∧
  run [EvSaveRecord Hawaiian; EvIdb; EvSaveRecord Zesty]
      (mkState (Some Connection) true (store_add Zesty createObjectStore)
         [ReqClear] [] [])
    = Some (mkState (Some Connection) true
              (store_clear (store_add Zesty createObjectStore))
              [ReqAdd Hawaiian; ReqAdd Zesty] []
              [Idb (ReqAdd Hawaiian); Idb (ReqAdd Zesty)]) ∧
  ∃ s'',
    run (repeat EvIdb 2)
        (mkState (Some Connection) true
           (store_clear (store_add Zesty createObjectStore))
           [ReqAdd Hawaiian; ReqAdd Zesty] []
           [Idb (ReqAdd Hawaiian); Idb (ReqAdd Zesty)]) = Some s'' ∧
    pending s'' = [] ∧
    getAll (store s'') = [Hawaiian; Zesty].
Proof.
  assert (saving [EvSaveRecord Hawaiian; EvIdb; EvSaveRecord Zesty]) as Hevs.
  { unfold saving. repeat apply List.Forall_cons; try apply List.Forall_nil;
      first [by left | by right; eexists]. }
  split_and!; [reflexivity|reflexivity|exact Hevs|reflexivity|].
  apply (saves_after_clear_survive
           [EvSaveRecord Hawaiian; EvIdb; EvSaveRecord Zesty] []
           (mkState (Some Connection) true (store_add Zesty createObjectStore)
              [ReqClear] [] [])
           (mkState (Some Connection) true
              (store_clear (store_add Zesty createObjectStore))
              [ReqAdd Hawaiian; ReqAdd Zesty] []
              [Idb (ReqAdd Hawaiian); Idb (ReqAdd Zesty)]));
    [reflexivity|reflexivity|exact Hevs|reflexivity].
Defined.

(** ** Witnesses for the run-level lemmas of the event loop *)

Lemma drain_after_saving_witness :
  db queued_offline = Some Connection ∧
  store_wf (store queued_offline) ∧
  saving [EvSaveRecord Hawaiian; EvIdb; EvSaveRecord Zesty] ∧
  run ([EvSaveRecord Hawaiian; EvIdb; EvSaveRecord Zesty] ++ [EvOnline]) queued_offline
    = Some (mkState (Some Connection) true
              (store_add Hawaiian (store_add Zesty createObjectStore))
              [ReqAdd Zesty; ReqGetAll] []
              [Idb (ReqAdd Zesty); Idb (ReqAdd Hawaiian); Idb (ReqAdd Zesty);
               Idb ReqGetAll]) ∧
  ∃ s2 s3,
    run (repeat EvIdb (length [ReqAdd Zesty; ReqGetAll] - 1))
        (mkState (Some Connection) true
           (store_add Hawaiian (store_add Zesty createObjectStore))
           [ReqAdd Zesty; ReqGetAll] []
           [Idb (ReqAdd Zesty); Idb (ReqAdd Hawaiian); Idb (ReqAdd Zesty);
            Idb ReqGetAll]) = Some s2 ∧
    pending s2 = [ReqGetAll] ∧
    getAll (store s2) =
      getAll (settled_store queued_offline) ++
      saved [EvSaveRecord Hawaiian; EvIdb; EvSaveRecord Zesty] ∧
    (pending queued_offline = [] →
     getAll (store s2) =
       getAll (store queued_offline) ++
       saved [EvSaveRecord Hawaiian; EvIdb; EvSaveRecord Zesty]) ∧
    step EvIdb s2 = Some s3 ∧
    store s3 = store s2.
Proof.
  assert (store_wf (store queued_offline)) as Hwf.
  { apply store_add_wf, createObjectStore_wf. }
  assert (saving [EvSaveRecord Hawaiian; EvIdb; EvSaveRecord Zesty]) as Hevs.
  { unfold saving. repeat apply List.Forall_cons; try apply List.Forall_nil;
      first [by left | by right; eexists]. }
  split_and!; [reflexivity|exact Hwf|exact Hevs|by vm_compute|].
  apply (drain_after_saving [EvSaveRecord Hawaiian; EvIdb; EvSaveRecord Zesty]
           queued_offline
           (mkState (Some Connection) true
              (store_add Hawaiian (store_add Zesty createObjectStore))
              [ReqAdd Zesty; ReqGetAll] []
              [Idb (ReqAdd Zesty); Idb (ReqAdd Hawaiian); Idb (ReqAdd Zesty);
               Idb ReqGetAll]));
    [reflexivity|exact Hwf|exact Hevs|by vm_compute].
Defined.

Lemma flushes_bounded_witness :
  run [EvOnline; EvOffline; EvOnline] queued_offline
    = Some (mkState (Some Connection) true (store_add Zesty createObjectStore)
              [ReqGetAll; ReqGetAll] []
              [Idb (ReqAdd Zesty); Idb ReqGetAll; Idb ReqGetAll]) ∧
  (drains [Idb (ReqAdd Zesty); Idb ReqGetAll; Idb ReqGetAll]
     ≤ drains (trace queued_offline) + triggers [EvOnline; EvOffline; EvOnline])%nat.
Proof.
  split; [reflexivity|].
  apply (flushes_bounded [EvOnline; EvOffline; EvOnline] queued_offline
           (mkState (Some Connection) true (store_add Zesty createObjectStore)
              [ReqGetAll; ReqGetAll] []
              [Idb (ReqAdd Zesty); Idb ReqGetAll; Idb ReqGetAll])).
  reflexivity.
Defined.

(** ** The comment counters *)

Lemma tally_throw_absorbs e refs : foldl tally (Throw e) refs = Throw e.
Proof. induction refs as [|ref refs IH]; [done|]. simpl. exact IH. Qed.

Lemma tally_populated n cs :
  foldl tally (Ok n) (Populated <$> cs)
  = Ok (n + length cs + sum_list_with replyCount cs).
Proof.
  revert n. induction cs as [|c cs IH]; intros n.
  - simpl. f_equal. lia.
  - rewrite !fmap_cons. simpl. rewrite IH. f_equal.
    unfold replyCount. lia.
Qed.

Lemma tally_defined_iff n refs :
  (∃ m, foldl tally (Ok n) refs = Ok m) ↔ (∀ id, ObjectId id ∉ refs).
Proof.
  revert n. induction refs as [|ref refs IH]; intros n.
  - split; [|by eexists]. intros _ id H. by apply elem_of_nil in H.
  - destruct ref as [c|id0]; simpl.
    + rewrite IH. split.
      * intros H id [?|?]%elem_of_cons; [done|by eapply H].
      * intros H id Hin. apply (H id). by right.
    + rewrite tally_throw_absorbs. split.
      * by intros [m ?].
      * intros H. destruct (H id0). by left.
Qed.

(** X11. On a pizza whose comments are populated, [commentCount] is the
    number of comments plus the number of all their replies, that is the sum
    of [replyCount + 1] over the comments; it is 0 for a pizza without
    comments and never less than the number of comments. *)
Theorem commentCount_populated (cs : list Comment) :
  commentCount (Populated <$> cs) = Ok (length cs + sum_list_with replyCount cs) ∧
  commentCount [] = Ok 0 ∧
  ∃ n, commentCount (Populated <$> cs) = Ok n ∧ (length cs ≤ n)%nat.
Proof.
  assert (commentCount (Populated <$> cs) =
          Ok (length cs + sum_list_with replyCount cs)) as H.
  { unfold commentCount. by rewrite tally_populated. }
  split_and!; [done|done|].
  exists (length cs + sum_list_with replyCount cs). split; [exact H|lia].
Qed.

(** X12. [commentCount] returns a number exactly when every element of
    [comments] is a populated comment; a single bare [ObjectId] anywhere in
    the array makes the getter throw a [TypeError]. *)
Theorem commentCount_defined_iff (refs : list CommentRef) :
  (∃ n, commentCount refs = Ok n) ↔ (∀ id, ObjectId id ∉ refs).
Proof. apply tally_defined_iff. Qed.

(** X13. On populated comments [commentCount] moves with the array: one
    more reply on any comment raises it by 1, and taking a comment out of
    the array lowers it by that comment's [replyCount + 1]. *)
Theorem commentCount_follows_edits (cs1 cs2 : list Comment) (c : Comment)
    (r : Reply) (n : nat) :
  commentCount (Populated <$> (cs1 ++ c :: cs2)) = Ok n →
  commentCount (Populated <$> (cs1 ++ push_reply r c :: cs2)) = Ok (n + 1) ∧
  commentCount (Populated <$> (cs1 ++ cs2)) = Ok (n - (replyCount c + 1)) ∧
  (replyCount c + 1 ≤ n)%nat.
Proof.
  unfold commentCount. rewrite !tally_populated.
  rewrite !length_app, !sum_list_with_app. simpl.
  unfold replyCount, push_reply. simpl. rewrite length_app. simpl.
  intros [= <-]. split_and!; [f_equal; lia|f_equal; lia|lia].
Qed.

Lemma commentCount_follows_edits_witness :
  commentCount (Populated <$> ([] ++ mkComment "lernantino" "Great" 0 [] :: [])) = Ok 1 ∧
  commentCount
    (Populated <$>
       ([] ++ push_reply (mkReply "r1" "Agreed" "amiko" 1)
                (mkComment "lernantino" "Great" 0 []) :: [])) = Ok (1 + 1).
Proof.
  split; [reflexivity|].
  apply (commentCount_follows_edits [] [] (mkComment "lernantino" "Great" 0 [])
           (mkReply "r1" "Agreed" "amiko" 1) 1).
  reflexivity.
Defined.

(** ** The whole round trip *)


